(** * Rock, Paper, Scissors: round resolution, session statistics, persistence

    A shallow embedding of [script.js].  The script keeps one global record
    [gameState], a handful of pure helpers over it, an asynchronous
    [playRound] that is interrupted once by a timer, and two functions that
    move the record to and from [localStorage] as JSON text.

    Conventions of the embedding:
    - JavaScript strings are [string]s (one character per code unit, code
      units up to 255); the strings the script compares with [===] are
      compared with [String.eqb].
    - The counters of [gameState] are JavaScript numbers that hold integers.
      They are embedded as [Z]; [x++] is [x + 1], which is what the script
      computes as long as the counter stays below 2^53, and an integer
      literal of a stored text is read as the integer it denotes.
    - Division and multiplication are not exact on small integers, so
      [calculateWinRate] is embedded over binary64 ([spec_float] with
      precision 53 and maximal exponent 1024, rounding to nearest even).
    - The DOM writes ([updateUI], the icons, the CSS classes) are presentation
      only and are left out; nothing in the script reads them back. *)

From Stdlib Require Import ZArith List String Ascii Bool Lia.
From Stdlib Require Import QArith Qround.
From Stdlib Require Import Floats.SpecFloat.
From Stdlib Require Import DecimalString DecimalZ DecimalPos DecimalFacts.
Import ListNotations.

Local Open Scope Z_scope.

(* ================================================================= *)
(** ** JavaScript numbers (binary64) *)

Module Number.

Definition prec : Z := 53.
Definition emax : Z := 1024.

(** The double nearest to an integer (exact below 2^53). *)
Definition of_Z (z : Z) : spec_float := binary_normalize prec emax z 0 false.

Definition div (x y : spec_float) : spec_float := SFdiv prec emax x y.
Definition mul (x y : spec_float) : spec_float := SFmul prec emax x y.

(** The integer a double stands for, when it stands for one. *)
Definition to_Z (x : spec_float) : option Z :=
  match x with
  | S754_zero _ => Some 0
  | S754_finite s m e =>
      let n := if s then Z.neg m else Z.pos m in
      if 0 <=? e then Some (n * 2 ^ e)
      else if n mod 2 ^ (- e) =? 0 then Some (n / 2 ^ (- e)) else None
  | _ => None
  end.

(** The exact rational value of a finite double. *)
Definition to_Q (x : spec_float) : option Q :=
  match x with
  | S754_zero _ => Some 0%Q
  | S754_finite s m e =>
      let n := if s then Z.neg m else Z.pos m in
      Some (if 0 <=? e then inject_Z (n * 2 ^ e)
            else Qmake n (Z.to_pos (2 ^ (- e))))
  | _ => None
  end.

(** [Math.round]: the integer nearest to [x], halves going towards
    +infinity; NaN, the infinities and the zeros are returned as they
    are, and a negative [x] of magnitude at most one half gives [-0]. *)
Definition Math_round (x : spec_float) : spec_float :=
  match x with
  | S754_finite s m e =>
      if 0 <=? e then x
      else
        let n := if s then Z.neg m else Z.pos m in
        let r := (2 * n + 2 ^ (- e)) / 2 ^ (1 - e) in
        if r =? 0 then S754_zero s else of_Z r
  | _ => x
  end.

End Number.

(* ================================================================= *)
(** ** Game state and constants *)

Record GameState := mkGameState {
  playerScore : Z;
  computerScore : Z;
  gamesPlayed : Z;
  wins : Z;
  losses : Z;
  ties : Z;
  currentStreak : Z;
  bestStreak : Z;
  isPlaying : bool
}.

(** The initial value of the global (script.js, lines 7-17). *)
Definition gameState : GameState :=
  {| playerScore := 0; computerScore := 0; gamesPlayed := 0; wins := 0;
     losses := 0; ties := 0; currentStreak := 0; bestStreak := 0;
     isPlaying := false |}.

Definition set_playerScore (v : Z) (g : GameState) : GameState :=
  mkGameState v (computerScore g) (gamesPlayed g) (wins g) (losses g) (ties g)
    (currentStreak g) (bestStreak g) (isPlaying g).
Definition set_computerScore (v : Z) (g : GameState) : GameState :=
  mkGameState (playerScore g) v (gamesPlayed g) (wins g) (losses g) (ties g)
    (currentStreak g) (bestStreak g) (isPlaying g).
Definition set_gamesPlayed (v : Z) (g : GameState) : GameState :=
  mkGameState (playerScore g) (computerScore g) v (wins g) (losses g) (ties g)
    (currentStreak g) (bestStreak g) (isPlaying g).
Definition set_wins (v : Z) (g : GameState) : GameState :=
  mkGameState (playerScore g) (computerScore g) (gamesPlayed g) v (losses g)
    (ties g) (currentStreak g) (bestStreak g) (isPlaying g).
Definition set_losses (v : Z) (g : GameState) : GameState :=
  mkGameState (playerScore g) (computerScore g) (gamesPlayed g) (wins g) v
    (ties g) (currentStreak g) (bestStreak g) (isPlaying g).
Definition set_ties (v : Z) (g : GameState) : GameState :=
  mkGameState (playerScore g) (computerScore g) (gamesPlayed g) (wins g)
    (losses g) v (currentStreak g) (bestStreak g) (isPlaying g).
Definition set_currentStreak (v : Z) (g : GameState) : GameState :=
  mkGameState (playerScore g) (computerScore g) (gamesPlayed g) (wins g)
    (losses g) (ties g) v (bestStreak g) (isPlaying g).
Definition set_bestStreak (v : Z) (g : GameState) : GameState :=
  mkGameState (playerScore g) (computerScore g) (gamesPlayed g) (wins g)
    (losses g) (ties g) (currentStreak g) v (isPlaying g).
Definition set_isPlaying (v : bool) (g : GameState) : GameState :=
  mkGameState (playerScore g) (computerScore g) (gamesPlayed g) (wins g)
    (losses g) (ties g) (currentStreak g) (bestStreak g) v.

Definition CHOICES : list string := ["rock"; "paper"; "scissors"]%string.

Module RESULTS.
Definition WIN : string := "win".
Definition LOSE : string := "lose".
Definition TIE : string := "tie".
End RESULTS.

(* ================================================================= *)
(** ** Game logic *)

(** [CHOICES[randomIndex]], where [randomIndex] is the value of
    [Math.floor(Math.random() * CHOICES.length)].  That value is 0, 1 or 2;
    the default stands for the [undefined] an index outside the array
    would give. *)
Definition getComputerChoice (randomIndex : nat) : string :=
  nth randomIndex CHOICES "undefined"%string.

(** The object literal inside [determineWinner], as its list of own
    properties. *)
Definition winConditions : list (string * string) :=
  [("rock", "scissors"); ("paper", "rock"); ("scissors", "paper")]%string.

Fixpoint property (o : list (string * string)) (k : string) : option string :=
  match o with
  | [] => None
  | (k', v) :: o' => if String.eqb k' k then Some v else property o' k
  end.

Definition determineWinner (playerChoice computerChoice : string) : string :=
  if String.eqb playerChoice computerChoice then RESULTS.TIE
  else
    match property winConditions playerChoice with
    | Some beaten =>
        if String.eqb beaten computerChoice then RESULTS.WIN else RESULTS.LOSE
    | None => RESULTS.LOSE
    end.

Definition updateGameState (result : string) (g : GameState) : GameState :=
  let g := set_gamesPlayed (gamesPlayed g + 1) g in
  if String.eqb result RESULTS.WIN then
    let g := set_playerScore (playerScore g + 1) g in
    let g := set_wins (wins g + 1) g in
    let g := set_currentStreak (currentStreak g + 1) g in
    if currentStreak g >? bestStreak g
    then set_bestStreak (currentStreak g) g
    else g
  else if String.eqb result RESULTS.LOSE then
    let g := set_computerScore (computerScore g + 1) g in
    let g := set_losses (losses g + 1) g in
    set_currentStreak 0 g
  else if String.eqb result RESULTS.TIE then
    set_ties (ties g + 1) g
  else g.

Definition calculateWinRate (g : GameState) : spec_float :=
  if gamesPlayed g =? 0 then Number.of_Z 0
  else
    let winRate :=
      Number.mul (Number.div (Number.of_Z (wins g)) (Number.of_Z (gamesPlayed g)))
                 (Number.of_Z 100) in
    Number.Math_round winRate.

(** What the specification asks of the win rate: [round(100*wins/gamesPlayed)]
    over the rationals, halves going up, and 0 before the first game. *)
Definition spec_winRate (g : GameState) : Z :=
  if gamesPlayed g =? 0 then 0
  else Qfloor (inject_Z 100 * inject_Z (wins g) / inject_Z (gamesPlayed g) + (1 # 2))%Q.

Definition after_rounds (results : list string) (g : GameState) : GameState :=
  fold_left (fun g r => updateGameState r g) results g.

(* ================================================================= *)
(** ** JSON text

    [JSON.parse] and [JSON.stringify] belong to the platform, not to the
    script; they are embedded from the JSON grammar (ECMA-404), which is the
    grammar [JSON.parse] accepts.  A text is first cut into tokens by a
    finite automaton that reads one character at a time, then the tokens
    are assembled by a pushdown automaton.  Both read their input once, from
    left to right; a rejected text is the [SyntaxError] of [JSON.parse]. *)

Module JSON.

#[local] Set Warnings "-register-all".

(** A decoded JSON string: its UTF-16 code units. *)
Definition text := list N.

Definition codes (s : string) : text := map N_of_ascii (list_ascii_of_string s).

Fixpoint text_eqb (s t : text) : bool :=
  match s, t with
  | [], [] => true
  | a :: s', b :: t' => (a =? b)%N && text_eqb s' t'
  | _, _ => false
  end.

Inductive value :=
| Null
| Bool (b : bool)
| Num (literal : string)
| Str (s : text)
| Arr (elements : list value)
| Obj (members : list (text * value)).

Inductive token :=
| TLBrace | TRBrace | TLBrack | TRBrack | TColon | TComma
| TStr (s : text)
| TNum (literal : string)
| TTrue | TFalse | TNull.

(** *** Tokens *)

Inductive lexer :=
| LStart
| LString (acc : text)
| LEscape (acc : text)
| LUnicode (acc : text) (remaining : nat) (code : N)
| LKeyword (remaining : string) (t : token)
| LMinus (acc : string)
| LZero (acc : string)
| LInt (acc : string)
| LDot (acc : string)
| LFrac (acc : string)
| LExpMark (acc : string)
| LExpSign (acc : string)
| LExp (acc : string).

Definition snoc (acc : string) (c : ascii) : string :=
  (acc ++ String c EmptyString)%string.

Definition is_digit (c : ascii) : bool :=
  let n := N_of_ascii c in ((48 <=? n) && (n <=? 57))%N.

Definition is_digit19 (c : ascii) : bool :=
  let n := N_of_ascii c in ((49 <=? n) && (n <=? 57))%N.

Definition is_whitespace (c : ascii) : bool :=
  let n := N_of_ascii c in ((n =? 32) || (n =? 9) || (n =? 10) || (n =? 13))%N.

Definition hex_digit (c : ascii) : option N :=
  let n := N_of_ascii c in
  if ((48 <=? n) && (n <=? 57))%N then Some (n - 48)%N
  else if ((65 <=? n) && (n <=? 70))%N then Some (n - 55)%N
  else if ((97 <=? n) && (n <=? 102))%N then Some (n - 87)%N
  else None.

(** The character an escape [\c] stands for ([\u] is handled apart). *)
Definition escape (c : ascii) : option N :=
  match N_of_ascii c with
  | 34%N => Some 34%N      (* quotation mark *)
  | 92%N => Some 92%N      (* reverse solidus *)
  | 47%N => Some 47%N      (* solidus *)
  | 98%N => Some 8%N       (* b *)
  | 102%N => Some 12%N     (* f *)
  | 110%N => Some 10%N     (* n *)
  | 114%N => Some 13%N     (* r *)
  | 116%N => Some 9%N      (* t *)
  | _ => None
  end.

(** One character read where a token may begin. *)
Definition lex_start (c : ascii) : option (list token * lexer) :=
  if is_whitespace c then Some ([], LStart)
  else
    match N_of_ascii c with
    | 123%N => Some ([TLBrace], LStart)
    | 125%N => Some ([TRBrace], LStart)
    | 91%N => Some ([TLBrack], LStart)
    | 93%N => Some ([TRBrack], LStart)
    | 58%N => Some ([TColon], LStart)
    | 44%N => Some ([TComma], LStart)
    | 34%N => Some ([], LString [])
    | 116%N => Some ([], LKeyword "rue" TTrue)
    | 102%N => Some ([], LKeyword "alse" TFalse)
    | 110%N => Some ([], LKeyword "ull" TNull)
    | 45%N => Some ([], LMinus (String c EmptyString))
    | 48%N => Some ([], LZero (String c EmptyString))
    | _ => if is_digit19 c then Some ([], LInt (String c EmptyString)) else None
    end.

(** A number that may end here: the character either continues it, or
    the number is emitted and the character begins the next token. *)
Definition lex_end_number (acc : string) (c : ascii) : option (list token * lexer) :=
  match lex_start c with
  | Some (ts, st) => Some (TNum acc :: ts, st)
  | None => None
  end.

Definition is_exp_mark (c : ascii) : bool :=
  let n := N_of_ascii c in ((n =? 101) || (n =? 69))%N.

Definition is_sign (c : ascii) : bool :=
  let n := N_of_ascii c in ((n =? 43) || (n =? 45))%N.

Definition is_dot (c : ascii) : bool := (N_of_ascii c =? 46)%N.

Definition lex_char (st : lexer) (c : ascii) : option (list token * lexer) :=
  match st with
  | LStart => lex_start c
  | LString acc =>
      let n := N_of_ascii c in
      if (n =? 34)%N then Some ([TStr acc], LStart)
      else if (n =? 92)%N then Some ([], LEscape acc)
      else if (n <? 32)%N then None
      else Some ([], LString (acc ++ [n]))
  | LEscape acc =>
      if (N_of_ascii c =? 117)%N then Some ([], LUnicode acc 4 0%N)
      else
        match escape c with
        | Some n => Some ([], LString (acc ++ [n]))
        | None => None
        end
  | LUnicode acc k code =>
      match hex_digit c with
      | Some h =>
          let code := (code * 16 + h)%N in
          match k with
          | S (S k') => Some ([], LUnicode acc (S k') code)
          | _ => Some ([], LString (acc ++ [code]))
          end
      | None => None
      end
  | LKeyword remaining t =>
      match remaining with
      | String k rest =>
          if Ascii.eqb c k then
            match rest with
            | EmptyString => Some ([t], LStart)
            | _ => Some ([], LKeyword rest t)
            end
          else None
      | EmptyString => None
      end
  | LMinus acc =>
      if (N_of_ascii c =? 48)%N then Some ([], LZero (snoc acc c))
      else if is_digit19 c then Some ([], LInt (snoc acc c))
      else None
  | LZero acc =>
      if is_dot c then Some ([], LDot (snoc acc c))
      else if is_exp_mark c then Some ([], LExpMark (snoc acc c))
      else lex_end_number acc c
  | LInt acc =>
      if is_digit c then Some ([], LInt (snoc acc c))
      else if is_dot c then Some ([], LDot (snoc acc c))
      else if is_exp_mark c then Some ([], LExpMark (snoc acc c))
      else lex_end_number acc c
  | LDot acc =>
      if is_digit c then Some ([], LFrac (snoc acc c)) else None
  | LFrac acc =>
      if is_digit c then Some ([], LFrac (snoc acc c))
      else if is_exp_mark c then Some ([], LExpMark (snoc acc c))
      else lex_end_number acc c
  | LExpMark acc =>
      if is_sign c then Some ([], LExpSign (snoc acc c))
      else if is_digit c then Some ([], LExp (snoc acc c))
      else None
  | LExpSign acc =>
      if is_digit c then Some ([], LExp (snoc acc c)) else None
  | LExp acc =>
      if is_digit c then Some ([], LExp (snoc acc c))
      else lex_end_number acc c
  end.

(** The end of the text: only between tokens, or at the end of a number. *)
Definition lex_eof (st : lexer) : option (list token) :=
  match st with
  | LStart => Some []
  | LZero acc | LInt acc | LFrac acc | LExp acc => Some [TNum acc]
  | _ => None
  end.

Fixpoint lex (st : lexer) (s : string) : option (list token) :=
  match s with
  | EmptyString => lex_eof st
  | String c rest =>
      match lex_char st c with
      | Some (ts, st') =>
          match lex st' rest with
          | Some ts' => Some (ts ++ ts')
          | None => None
          end
      | None => None
      end
  end.

(** *** Values *)

(** An array or an object that is still open. *)
Inductive frame :=
| FArr (elements : list value)
| FObj (members : list (text * value))
| FKey (members : list (text * value)) (key : text).

Inductive expect :=
| EValue                (* a value *)
| EValueOrEnd           (* a value, or the bracket closing an empty array *)
| EKey                  (* a member name *)
| EKeyOrEnd             (* a member name, or the brace closing an empty object *)
| EColon
| ECommaOrEnd           (* a comma, or the bracket or brace closing the frame *)
| EDone (v : value).    (* the text is complete *)

Definition parser := (list frame * expect)%type.

(** A value is complete: it goes into the innermost open frame. *)
Definition complete (v : value) (stack : list frame) : option parser :=
  match stack with
  | [] => Some ([], EDone v)
  | FArr elements :: stack' => Some (FArr (elements ++ [v]) :: stack', ECommaOrEnd)
  | FKey members key :: stack' =>
      Some (FObj (members ++ [(key, v)]) :: stack', ECommaOrEnd)
  | FObj _ :: _ => None
  end.

Definition parse_value_token (t : token) (stack : list frame) : option parser :=
  match t with
  | TNull => complete Null stack
  | TTrue => complete (Bool true) stack
  | TFalse => complete (Bool false) stack
  | TNum n => complete (Num n) stack
  | TStr s => complete (Str s) stack
  | TLBrack => Some (FArr [] :: stack, EValueOrEnd)
  | TLBrace => Some (FObj [] :: stack, EKeyOrEnd)
  | _ => None
  end.

Definition parse_key_token (t : token) (stack : list frame) : option parser :=
  match t, stack with
  | TStr key, FObj members :: stack' => Some (FKey members key :: stack', EColon)
  | _, _ => None
  end.

Definition parse_close (t : token) (stack : list frame) : option parser :=
  match t, stack with
  | TRBrack, FArr elements :: stack' => complete (Arr elements) stack'
  | TRBrace, FObj members :: stack' => complete (Obj members) stack'
  | _, _ => None
  end.

Definition parse_token (p : parser) (t : token) : option parser :=
  let '(stack, e) := p in
  match e with
  | EValue => parse_value_token t stack
  | EValueOrEnd =>
      match t with
      | TRBrack => parse_close t stack
      | _ => parse_value_token t stack
      end
  | EKey => parse_key_token t stack
  | EKeyOrEnd =>
      match t with
      | TRBrace => parse_close t stack
      | _ => parse_key_token t stack
      end
  | EColon =>
      match t with
      | TColon => Some (stack, EValue)
      | _ => None
      end
  | ECommaOrEnd =>
      match t, stack with
      | TComma, FArr _ :: _ => Some (stack, EValue)
      | TComma, FObj _ :: _ => Some (stack, EKey)
      | TComma, _ => None
      | _, _ => parse_close t stack
      end
  | EDone _ => None
  end.

Fixpoint parse_tokens (p : parser) (ts : list token) : option value :=
  match ts with
  | [] =>
      match p with
      | ([], EDone v) => Some v
      | _ => None
      end
  | t :: ts' =>
      match parse_token p t with
      | Some p' => parse_tokens p' ts'
      | None => None
      end
  end.

(** [JSON.parse text]: [None] is the [SyntaxError] it throws. *)
Definition parse (s : string) : option value :=
  match lex LStart s with
  | Some ts => parse_tokens ([], EValue) ts
  | None => None
  end.

(** *** Writing *)

Definition quotation_mark : ascii := ascii_of_N 34.

(** A name between quotation marks (the names written here need no
    escape). *)
Definition quote (s : string) : string :=
  String quotation_mark (s ++ String quotation_mark EmptyString)%string.

(** An integer in decimal, as [Number::toString] writes it. *)
Definition of_integer (z : Z) : string := NilZero.string_of_int (Z.to_int z).

Definition of_bool (b : bool) : string := if b then "true"%string else "false"%string.

(** The integer a number literal denotes, when it is written without
    fraction and exponent. *)
Definition to_integer (literal : string) : option Z :=
  match NilZero.int_of_string literal with
  | Some i => Some (Z.of_int i)
  | None => None
  end.

End JSON.

(* ================================================================= *)
(** ** Persistence

    [localStorage] is used under the single key ['rpsGameState']; the world
    of the script is the global record and the value stored under that key
    ([None] when [getItem] returns [null]). *)

Record World := mkWorld {
  game : GameState;
  rpsGameState : option string
}.

Definition with_game (g : GameState) (w : World) : World :=
  mkWorld g (rpsGameState w).

Definition member (name value : string) : string :=
  (JSON.quote name ++ ":" ++ value)%string.

(** [JSON.stringify(gameState)]: the nine properties in the order of the
    object literal, without white space. *)
Definition JSON_stringify (g : GameState) : string :=
  ("{" ++ member "playerScore" (JSON.of_integer (playerScore g))
   ++ "," ++ member "computerScore" (JSON.of_integer (computerScore g))
   ++ "," ++ member "gamesPlayed" (JSON.of_integer (gamesPlayed g))
   ++ "," ++ member "wins" (JSON.of_integer (wins g))
   ++ "," ++ member "losses" (JSON.of_integer (losses g))
   ++ "," ++ member "ties" (JSON.of_integer (ties g))
   ++ "," ++ member "currentStreak" (JSON.of_integer (currentStreak g))
   ++ "," ++ member "bestStreak" (JSON.of_integer (bestStreak g))
   ++ "," ++ member "isPlaying" (JSON.of_bool (isPlaying g))
   ++ "}")%string.

Definition saveGame (w : World) : World :=
  mkWorld (game w) (Some (JSON_stringify (game w))).

(** The counters of [gameState], by property name. *)
Definition counters : list (string * (Z -> GameState -> GameState)) :=
  [("playerScore", set_playerScore); ("computerScore", set_computerScore);
   ("gamesPlayed", set_gamesPlayed); ("wins", set_wins);
   ("losses", set_losses); ("ties", set_ties);
   ("currentStreak", set_currentStreak); ("bestStreak", set_bestStreak)]%string.

Fixpoint counter (l : list (string * (Z -> GameState -> GameState))) (key : JSON.text)
  : option (Z -> GameState -> GameState) :=
  match l with
  | [] => None
  | (name, set) :: l' =>
      if JSON.text_eqb key (JSON.codes name) then Some set else counter l' key
  end.

(** One property copied by [Object.assign].  The record holds integers in
    its counters, a boolean in [isPlaying] and nothing else: a parsed member
    that does not fit (another name, a string, a fraction, an object) takes
    the state out of what the embedding describes, which is [None]. *)
Definition assign_member (target : option GameState) (m : JSON.text * JSON.value)
  : option GameState :=
  match target with
  | None => None
  | Some g =>
      let '(key, v) := m in
      if JSON.text_eqb key (JSON.codes "isPlaying") then
        match v with
        | JSON.Bool b => Some (set_isPlaying b g)
        | _ => None
        end
      else
        match counter counters key, v with
        | Some set, JSON.Num literal =>
            match JSON.to_integer literal with
            | Some z => Some (set z g)
            | None => None
            end
        | _, _ => None
        end
  end.

(** [Object.assign(gameState, parsed)]: the own enumerable properties of
    [parsed], in order, each written to [gameState].  [null], a boolean and
    a number have none; a string and an array have their indices. *)
Definition Object_assign (target : GameState) (parsed : JSON.value) : option GameState :=
  match parsed with
  | JSON.Obj members => fold_left assign_member members (Some target)
  | JSON.Null | JSON.Bool _ | JSON.Num _ => Some target
  | JSON.Str [] | JSON.Arr [] => Some target
  | JSON.Str (_ :: _) | JSON.Arr (_ :: _) => None
  end.

(** How a call that may throw ends. *)
Inductive outcome :=
| Returns (w : World)          (* normal completion *)
| SyntaxError (w : World)      (* [JSON.parse] threw; nothing catches it *)
| NotCovered.                  (* the loaded state is outside the embedding *)

(** [getItem] gives [null] or a string; [null] and the empty string are
    falsy, so the body of the [if] is skipped for them. *)
Definition loadGame (w : World) : outcome :=
  match rpsGameState w with
  | None => Returns w
  | Some EmptyString => Returns w
  | Some savedState =>
      match JSON.parse savedState with
      | None => SyntaxError w
      | Some parsed =>
          match Object_assign (game w) parsed with
          | Some g => Returns (with_game g w)
          | None => NotCovered
          end
      end
  end.

Definition resetGame (w : World) : World :=
  let g := game w in
  let g := set_playerScore 0 g in
  let g := set_computerScore 0 g in
  let g := set_gamesPlayed 0 g in
  let g := set_wins 0 g in
  let g := set_losses 0 g in
  let g := set_ties 0 g in
  let g := set_currentStreak 0 g in
  mkWorld g None.

(* ================================================================= *)
(** ** Rounds and events

    [playRound] is asynchronous: it runs up to [await delay(800)], returns,
    and its continuation runs when the timer fires.  A page is the world
    together with the continuations that wait for their timer, oldest first;
    each one remembers the [playerChoice] it was called with. *)

Record Page := mkPage {
  world : World;
  timers : list string
}.

(** [playRound], up to the [await]. *)
Definition playRound (playerChoice : string) (pg : Page) : Page :=
  if isPlaying (game (world pg)) then pg
  else
    mkPage (with_game (set_isPlaying true (game (world pg))) (world pg))
           (timers pg ++ [playerChoice]).

(** [playRound], after the [await]. *)
Definition playRound_resume (playerChoice : string) (randomIndex : nat) (w : World) : World :=
  let computerChoice := getComputerChoice randomIndex in
  let result := determineWinner playerChoice computerChoice in
  let w := with_game (updateGameState result (game w)) w in
  let w := saveGame w in
  with_game (set_isPlaying false (game w)) w.

Definition toLowerCase_char (c : ascii) : ascii :=
  let n := N_of_ascii c in
  if ((65 <=? n) && (n <=? 90))%N then ascii_of_N (n + 32) else c.

Fixpoint toLowerCase (s : string) : string :=
  match s with
  | EmptyString => EmptyString
  | String c s' => String (toLowerCase_char c) (toLowerCase s')
  end.

Definition on_page (f : World -> World) (pg : Page) : Page :=
  mkPage (f (world pg)) (timers pg).

(** The [keydown] listener of [initEventListeners]. *)
Definition keydown (key : string) (pg : Page) : Page :=
  if isPlaying (game (world pg)) then pg
  else
    let k := toLowerCase key in
    if (String.eqb k "r" || String.eqb k "1")%bool then playRound "rock" pg
    else if (String.eqb k "p" || String.eqb k "2")%bool then playRound "paper" pg
    else if (String.eqb k "s" || String.eqb k "3")%bool then playRound "scissors" pg
    else if String.eqb k "escape" then on_page resetGame pg
    else pg.

Inductive button := rockBtn | paperBtn | scissorsBtn | resetBtn.

Inductive event :=
| Click (b : button)
| Keydown (key : string)
| DelayElapsed (randomIndex : nat).   (* the oldest pending [delay(800)] elapses *)

Definition handle (pg : Page) (e : event) : Page :=
  match e with
  | Click rockBtn => playRound "rock" pg
  | Click paperBtn => playRound "paper" pg
  | Click scissorsBtn => playRound "scissors" pg
  | Click resetBtn => on_page resetGame pg
  | Keydown key => keydown key pg
  | DelayElapsed randomIndex =>
      match timers pg with
      | [] => pg
      | playerChoice :: rest =>
          mkPage (playRound_resume playerChoice randomIndex (world pg)) rest
      end
  end.

Definition run (events : list event) (pg : Page) : Page :=
  fold_left handle events pg.

(** [init], run once when the document is loaded: the global has its
    initial value, the storage is what earlier visits left.  The listeners
    are installed after [loadGame] returns, so there is a page to play on
    only then. *)
Definition init (stored : option string) : outcome :=
  loadGame (mkWorld gameState stored).

Definition fresh : Page := mkPage (mkWorld gameState None) [].

(** The two operations that write the statistics. *)
Inductive operation :=
| RecordRound (result : string)      (* [updateGameState(result)] *)
| ResetGame.                       (* [resetGame()] *)

Definition perform (w : World) (o : operation) : World :=
  match o with
  | RecordRound result => with_game (updateGameState result (game w)) w
  | ResetGame => resetGame w
  end.

(* ================================================================= *)
(** ** Relations and invariants of the statements *)

Definition beats : list (string * string) :=
  [("rock", "scissors"); ("paper", "rock"); ("scissors", "paper")]%string.

Ltac choice_cases H :=
  simpl in H;
  repeat match type of H with
         | _ \/ _ => destruct H as [H | H]
         end;
  try contradiction; subst.

Ltac setters :=
  unfold set_playerScore, set_computerScore, set_gamesPlayed, set_wins,
    set_losses, set_ties, set_currentStreak, set_bestStreak, set_isPlaying;
  cbn [playerScore computerScore gamesPlayed wins losses ties currentStreak
       bestStreak isPlaying].

Definition is_result (r : string) : Prop :=
  In r [RESULTS.WIN; RESULTS.LOSE; RESULTS.TIE].

(** The streak invariant, with the sign that makes it inductive. *)
Definition streak_ok (g : GameState) : Prop :=
  0 <= currentStreak g <= bestStreak g.

(** Whether [calculateWinRate] gives the win rate of the specification,
    as a function of the two counters both read. *)
Definition winRate_agrees (w n : Z) : bool :=
  let g := set_wins w (set_gamesPlayed n gameState) in
  match Number.to_Z (calculateWinRate g) with
  | Some r => r =? spec_winRate g
  | None => false
  end.

Definition winRate_agrees_below (bound : nat) : bool :=
  forallb (fun n => forallb (fun w => winRate_agrees (Z.of_nat w) (Z.of_nat n))
                            (seq 0 (S n)))
          (seq 0 bound).

(** A character that cannot continue a number. *)
Definition ends_number (c : ascii) : bool :=
  negb (JSON.is_digit c) && negb (JSON.is_dot c) && negb (JSON.is_exp_mark c).

Definition leading_nonzero (d : Decimal.uint) : Prop :=
  match d with
  | Decimal.Nil | Decimal.D0 _ => False
  | _ => True
  end.

(** A character that stands for itself inside a JSON string. *)
Definition plain (c : ascii) : bool :=
  let n := N_of_ascii c in
  (negb (n =? 34) && negb (n =? 92) && negb (n <? 32))%N.

Fixpoint all_plain (s : string) : bool :=
  match s with
  | EmptyString => true
  | String c s' => plain c && all_plain s'
  end.

(** The members of the object [saveGame] writes. *)
Definition saved_members (g : GameState) : list (JSON.text * JSON.value) :=
  [(JSON.codes "playerScore", JSON.Num (JSON.of_integer (playerScore g)));
   (JSON.codes "computerScore", JSON.Num (JSON.of_integer (computerScore g)));
   (JSON.codes "gamesPlayed", JSON.Num (JSON.of_integer (gamesPlayed g)));
   (JSON.codes "wins", JSON.Num (JSON.of_integer (wins g)));
   (JSON.codes "losses", JSON.Num (JSON.of_integer (losses g)));
   (JSON.codes "ties", JSON.Num (JSON.of_integer (ties g)));
   (JSON.codes "currentStreak", JSON.Num (JSON.of_integer (currentStreak g)));
   (JSON.codes "bestStreak", JSON.Num (JSON.of_integer (bestStreak g)));
   (JSON.codes "isPlaying", JSON.Bool (isPlaying g))].

(** A stored value cut off in the middle. *)
Definition truncated : string := substring 0 30 (JSON_stringify gameState).

(** At most one round waits for its timer, and the guard is set while it
    waits. *)
Definition guarded (pg : Page) : Prop :=
  timers pg = [] \/
  (exists playerChoice, timers pg = [playerChoice]) /\
  isPlaying (game (world pg)) = true.

(** Whatever is stored was written with the guard set. *)
Definition saved_with_guard (w : World) : Prop :=
  forall blob, rpsGameState w = Some blob ->
               exists g, blob = JSON_stringify g /\ isPlaying g = true.

(** The guard is set and no round is pending. *)
Definition stuck (pg : Page) : Prop :=
  timers pg = [] /\ isPlaying (game (world pg)) = true.

Definition restored_or_reset (g : GameState) (pg : Page) : Prop :=
  game (world pg) = g \/ game (world pg) = game (resetGame (mkWorld g None)).

(* ================================================================= *)
(** ** The document

    The script writes to eight elements and to the style of the icon of the
    reset button.  An element is embedded as its text and its class list; a
    text is a sequence of UTF-16 code units, since the icons and messages
    are not Latin-1.  [setTimeout] callbacks wait in a list and fire in any
    order, which covers the order the real delays (500 ms, 800 ms, 1000 ms)
    give.  A number becomes a text through the platform's conversion, which
    is left as the parameter [ToString]. *)

Definition DOMString := list N.

Record element := mkElement {
  textContent : DOMString;
  classList : list string
}.

Definition set_textContent (t : DOMString) (e : element) : element :=
  mkElement t (classList e).

(** [classList.add(token)]: the list is an ordered set. *)
Definition classList_add (token : string) (e : element) : element :=
  if existsb (String.eqb token) (classList e) then e
  else mkElement (textContent e) (classList e ++ [token]).

(** [classList.remove(token, ...)]. *)
Definition classList_remove (tokens : list string) (e : element) : element :=
  mkElement (textContent e)
            (filter (fun c => negb (existsb (String.eqb c) tokens)) (classList e)).

Module elements.
Record t := mk {
  playerScore : element;
  computerScore : element;
  playerChoiceIcon : element;
  computerChoiceIcon : element;
  resultText : element;
  resetIcon_animation : string;   (* [resetBtn.querySelector('.reset-icon').style.animation] *)
  gamesPlayed : element;
  winRate : element;
  streak : element
}.
Definition with_playerScore (e : element) (x : t) : t :=
  mk e (computerScore x) (playerChoiceIcon x) (computerChoiceIcon x) (resultText x)
     (resetIcon_animation x) (gamesPlayed x) (winRate x) (streak x).
Definition with_computerScore (e : element) (x : t) : t :=
  mk (playerScore x) e (playerChoiceIcon x) (computerChoiceIcon x) (resultText x)
     (resetIcon_animation x) (gamesPlayed x) (winRate x) (streak x).
Definition with_playerChoiceIcon (e : element) (x : t) : t :=
  mk (playerScore x) (computerScore x) e (computerChoiceIcon x) (resultText x)
     (resetIcon_animation x) (gamesPlayed x) (winRate x) (streak x).
Definition with_computerChoiceIcon (e : element) (x : t) : t :=
  mk (playerScore x) (computerScore x) (playerChoiceIcon x) e (resultText x)
     (resetIcon_animation x) (gamesPlayed x) (winRate x) (streak x).
Definition with_resultText (e : element) (x : t) : t :=
  mk (playerScore x) (computerScore x) (playerChoiceIcon x) (computerChoiceIcon x) e
     (resetIcon_animation x) (gamesPlayed x) (winRate x) (streak x).
Definition with_resetIcon_animation (a : string) (x : t) : t :=
  mk (playerScore x) (computerScore x) (playerChoiceIcon x) (computerChoiceIcon x)
     (resultText x) a (gamesPlayed x) (winRate x) (streak x).
Definition with_gamesPlayed (e : element) (x : t) : t :=
  mk (playerScore x) (computerScore x) (playerChoiceIcon x) (computerChoiceIcon x)
     (resultText x) (resetIcon_animation x) e (winRate x) (streak x).
Definition with_winRate (e : element) (x : t) : t :=
  mk (playerScore x) (computerScore x) (playerChoiceIcon x) (computerChoiceIcon x)
     (resultText x) (resetIcon_animation x) (gamesPlayed x) e (streak x).
Definition with_streak (e : element) (x : t) : t :=
  mk (playerScore x) (computerScore x) (playerChoiceIcon x) (computerChoiceIcon x)
     (resultText x) (resetIcon_animation x) (gamesPlayed x) (winRate x) e.
End elements.

(** The own property [o[k]] of an object literal; [None] when [k] is not
    one of its keys.  The script reads its tables only at keys they have;
    a function that would read another key stops being described. *)
Fixpoint own {A : Type} (o : list (string * A)) (k : string) : option A :=
  match o with
  | [] => None
  | (k', v) :: o' => if String.eqb k' k then Some v else own o' k
  end.

Definition CHOICE_EMOJIS : list (string * DOMString) :=
  [("rock"%string, [55358; 57000]%N);
   ("paper"%string, [55357; 56516]%N);
   ("scissors"%string, [9986; 65039]%N)].

Definition RESULT_MESSAGES : list (string * list DOMString) :=
  [("win"%string,
    [JSON.codes "You Win! " ++ [55356; 57225]%N;
     JSON.codes "Victory! " ++ [55357; 56490]%N;
     JSON.codes "Nice One! " ++ [55357; 56613]%N;
     JSON.codes "Champion! " ++ [55356; 57286]%N]);
   ("lose"%string,
    [JSON.codes "You Lose! " ++ [55357; 56866]%N;
     JSON.codes "Too Bad! " ++ [55357; 56468]%N;
     JSON.codes "Try Again! " ++ [55356; 57263]%N;
     JSON.codes "So Close! " ++ [55357; 56837]%N]);
   ("tie"%string,
    [JSON.codes "It's a Tie! " ++ [55358; 56605]%N;
     JSON.codes "Draw! " ++ [9878; 65039]%N;
     JSON.codes "Equal! " ++ [55357; 56580]%N;
     JSON.codes "Matched! " ++ [9851; 65039]%N])].

Definition result_classes : list string := ["win"; "lose"; "tie"]%string.

(** [messages[randomIndex]] where [randomIndex] is the value of
    [Math.floor(Math.random() * messages.length)], which is below
    [messages.length]. *)
Definition getResultMessage (result : string) (randomIndex : nat) : option DOMString :=
  match own RESULT_MESSAGES result with
  | Some messages => nth_error messages randomIndex
  | None => None
  end.

Definition showThinkingAnimation (els : elements.t) : elements.t :=
  let icon := elements.computerChoiceIcon els in
  let icon := set_textContent [55358; 56596]%N icon in
  elements.with_computerChoiceIcon (classList_add "thinking" icon) els.

Definition hideThinkingAnimation (els : elements.t) : elements.t :=
  elements.with_computerChoiceIcon
    (classList_remove ["thinking"%string] (elements.computerChoiceIcon els)) els.

Definition resetChoiceDisplays (els : elements.t) : elements.t :=
  let els := elements.with_playerChoiceIcon
               (set_textContent [10067%N] (elements.playerChoiceIcon els)) els in
  let els := elements.with_computerChoiceIcon
               (set_textContent [10067%N] (elements.computerChoiceIcon els)) els in
  let els := elements.with_resultText
               (set_textContent (JSON.codes "Make your move!") (elements.resultText els))
               els in
  elements.with_resultText
    (classList_remove result_classes (elements.resultText els)) els.

Definition updateResultDisplay (result : string) (randomIndex : nat) (els : elements.t)
  : option elements.t :=
  match getResultMessage result randomIndex with
  | Some message =>
      let text := set_textContent message (elements.resultText els) in
      let text := classList_remove result_classes text in
      Some (elements.with_resultText (classList_add result text) els)
  | None => None
  end.

(** A callback given to [setTimeout]. *)
Inductive callback :=
| RemoveActive        (* of [updateChoiceDisplays], after 1000 ms *)
| ClearAnimation.     (* of [resetGame], after 500 ms *)

Definition updateChoiceDisplays (playerChoice computerChoice : string)
    (els : elements.t) (callbacks : list callback)
  : option (elements.t * list callback) :=
  match own CHOICE_EMOJIS playerChoice, own CHOICE_EMOJIS computerChoice with
  | Some playerIcon, Some computerIcon =>
      let els := elements.with_playerChoiceIcon
                   (set_textContent playerIcon (elements.playerChoiceIcon els)) els in
      let els := elements.with_computerChoiceIcon
                   (set_textContent computerIcon (elements.computerChoiceIcon els)) els in
      let els := elements.with_playerChoiceIcon
                   (classList_add "active" (elements.playerChoiceIcon els)) els in
      let els := elements.with_computerChoiceIcon
                   (classList_add "active" (elements.computerChoiceIcon els)) els in
      Some (els, callbacks ++ [RemoveActive])
  | _, _ => None
  end.

Definition run_callback (c : callback) (els : elements.t) : elements.t :=
  match c with
  | RemoveActive =>
      let els := elements.with_playerChoiceIcon
                   (classList_remove ["active"%string] (elements.playerChoiceIcon els))
                   els in
      elements.with_computerChoiceIcon
        (classList_remove ["active"%string] (elements.computerChoiceIcon els)) els
  | ClearAnimation => elements.with_resetIcon_animation EmptyString els
  end.

Record Document := mkDocument {
  page : Page;
  els : elements.t;
  callbacks : list callback
}.

(** What happens to a document. *)
Inductive document_event :=
| Clicked (b : button)
| KeyPressed (key : string)
| RoundDelayElapsed (randomIndex messageIndex : nat)
    (* the pending [delay(800)] elapses; the two values of
       [Math.floor(Math.random() * length)] its continuation draws *)
| CallbackFires (k : nat).      (* the k-th waiting callback runs *)

Section Document.

(** [String(x)] for a number [x]. *)
Variable ToString : spec_float -> DOMString.

Definition updateUI (g : GameState) (els : elements.t) : elements.t :=
  let els := elements.with_playerScore
               (set_textContent (ToString (Number.of_Z (playerScore g)))
                                (elements.playerScore els)) els in
  let els := elements.with_computerScore
               (set_textContent (ToString (Number.of_Z (computerScore g)))
                                (elements.computerScore els)) els in
  let els := elements.with_gamesPlayed
               (set_textContent (ToString (Number.of_Z (gamesPlayed g)))
                                (elements.gamesPlayed els)) els in
  let els := elements.with_winRate
               (set_textContent (ToString (calculateWinRate g) ++ JSON.codes "%")
                                (elements.winRate els)) els in
  elements.with_streak
    (set_textContent (ToString (Number.of_Z (currentStreak g)))
                     (elements.streak els)) els.

(** [playRound] with its writes to the document, up to the [await]. *)
Definition playRound_document (playerChoice : string) (d : Document) : option Document :=
  if isPlaying (game (world (page d))) then Some d
  else
    match own CHOICE_EMOJIS playerChoice with
    | Some icon =>
        let els := els d in
        let els := elements.with_playerChoiceIcon
                     (set_textContent icon (elements.playerChoiceIcon els)) els in
        let els := elements.with_playerChoiceIcon
                     (classList_add "active" (elements.playerChoiceIcon els)) els in
        let els := showThinkingAnimation els in
        let els := elements.with_resultText
                     (set_textContent (JSON.codes "Computer is thinking...")
                                      (elements.resultText els)) els in
        let els := elements.with_resultText
                     (classList_remove result_classes (elements.resultText els)) els in
        Some (mkDocument (playRound playerChoice (page d)) els (callbacks d))
    | None => None
    end.

(** [playRound] with its writes to the document, after the [await]. *)
Definition playRound_resume_document (playerChoice : string)
    (randomIndex messageIndex : nat) (rest : list string) (d : Document)
  : option Document :=
  let computerChoice := getComputerChoice randomIndex in
  let result := determineWinner playerChoice computerChoice in
  let els := hideThinkingAnimation (els d) in
  match updateChoiceDisplays playerChoice computerChoice els (callbacks d) with
  | Some (els, callbacks) =>
      match updateResultDisplay result messageIndex els with
      | Some els =>
          let w := playRound_resume playerChoice randomIndex (world (page d)) in
          Some (mkDocument (mkPage w rest) (updateUI (game w) els) callbacks)
      | None => None
      end
  | None => None
  end.

Definition resetGame_document (d : Document) : Document :=
  let pg := on_page resetGame (page d) in
  let els := resetChoiceDisplays (els d) in
  let els := updateUI (game (world pg)) els in
  let els := elements.with_resetIcon_animation "spin 0.5s ease-in-out" els in
  mkDocument pg els (callbacks d ++ [ClearAnimation]).

Definition keydown_document (key : string) (d : Document) : option Document :=
  if isPlaying (game (world (page d))) then Some d
  else
    let k := toLowerCase key in
    if (String.eqb k "r" || String.eqb k "1")%bool then playRound_document "rock" d
    else if (String.eqb k "p" || String.eqb k "2")%bool then playRound_document "paper" d
    else if (String.eqb k "s" || String.eqb k "3")%bool then playRound_document "scissors" d
    else if String.eqb k "escape" then Some (resetGame_document d)
    else Some d.

Fixpoint remove_nth {A : Type} (k : nat) (l : list A) : list A :=
  match l, k with
  | [], _ => []
  | _ :: l', O => l'
  | x :: l', S k' => x :: remove_nth k' l'
  end.

Definition handle_document (d : Document) (e : document_event) : option Document :=
  match e with
  | Clicked rockBtn => playRound_document "rock" d
  | Clicked paperBtn => playRound_document "paper" d
  | Clicked scissorsBtn => playRound_document "scissors" d
  | Clicked resetBtn => Some (resetGame_document d)
  | KeyPressed key => keydown_document key d
  | RoundDelayElapsed randomIndex messageIndex =>
      match timers (page d) with
      | [] => Some d
      | playerChoice :: rest =>
          playRound_resume_document playerChoice randomIndex messageIndex rest d
      end
  | CallbackFires k =>
      match nth_error (callbacks d) k with
      | Some c => Some (mkDocument (page d) (run_callback c (els d))
                                   (remove_nth k (callbacks d)))
      | None => Some d
      end
  end.

Fixpoint run_document (events : list document_event) (d : Document) : option Document :=
  match events with
  | [] => Some d
  | e :: events' =>
      match handle_document d e with
      | Some d' => run_document events' d'
      | None => None
      end
  end.

(** [init] on the document the HTML gives: [loadGame] calls [updateUI]
    when something was stored, and the listeners are installed when it
    returns. *)
Definition init_document (stored : option string) (html : elements.t) : option Document :=
  match init stored with
  | Returns w =>
      let els :=
        match stored with
        | Some (String _ _) => updateUI (game w) html
        | _ => html
        end in
      Some (mkDocument (mkPage w []) els [])
  | _ => None
  end.

End Document.

(** The event of the page that an event of the document is. *)
Definition page_event (e : document_event) : option event :=
  match e with
  | Clicked b => Some (Click b)
  | KeyPressed key => Some (Keydown key)
  | RoundDelayElapsed randomIndex _ => Some (DelayElapsed randomIndex)
  | CallbackFires _ => None
  end.

(** The values the two draws of a round can have. *)
Definition drawn (e : document_event) : Prop :=
  match e with
  | RoundDelayElapsed randomIndex messageIndex =>
      (randomIndex < 3)%nat /\ (messageIndex < 4)%nat
  | _ => True
  end.

(** The scoreboard shows the statistics [g]. *)
Definition shows (ToString : spec_float -> DOMString) (g : GameState) (els : elements.t)
  : Prop :=
  textContent (elements.playerScore els) = ToString (Number.of_Z (playerScore g)) /\
  textContent (elements.computerScore els) = ToString (Number.of_Z (computerScore g)) /\
  textContent (elements.gamesPlayed els) = ToString (Number.of_Z (gamesPlayed g)) /\
  textContent (elements.winRate els) = ToString (calculateWinRate g) ++ JSON.codes "%" /\
  textContent (elements.streak els) = ToString (Number.of_Z (currentStreak g)).

(** The result classes an element carries. *)
Definition shown_results (e : element) : list string :=
  filter (fun c => existsb (String.eqb c) result_classes) (classList e).

Definition thinking (d : Document) : Prop :=
  In "thinking"%string (classList (elements.computerChoiceIcon (els d))).

(** The events of the page that a sequence of events of the document is. *)
Fixpoint page_events (events : list document_event) : list event :=
  match events with
  | [] => []
  | e :: events' =>
      match page_event e with
      | Some e' => e' :: page_events events'
      | None => page_events events'
      end
  end.

(** A document as the HTML might give it, for examples: every text empty,
    no class. *)
Definition blank : elements.t :=
  let e := mkElement [] [] in elements.mk e e e e e EmptyString e e e.

(** The conversion of a number to text on the doubles that hold an
    integer (in decimal), for examples. *)
Definition decimal_text (x : spec_float) : DOMString :=
  match Number.to_Z x with
  | Some z => JSON.codes (JSON.of_integer z)
  | None => JSON.codes "NaN"
  end.

(** A document after a reset, a click on rock and the round it starts,
    for examples. *)
Definition example_start : Document :=
  resetGame_document decimal_text (mkDocument fresh blank []).

Definition example_events : list document_event :=
  [Clicked rockBtn; KeyPressed "p"; RoundDelayElapsed 2 3; CallbackFires 0].

Definition example_end : Document :=
  Eval vm_compute in
    match run_document decimal_text example_events example_start with
    | Some d => d
    | None => example_start
    end.

(* ================================================================= *)
(** ** Random draws

    [Math.random()] returns a double of positive sign, at least [+0] and
    strictly below 1.  The script multiplies it by the length of an array
    (a rounded binary64 product) and takes [Math.floor] of the product to
    index the array. *)

(** [Math.floor] of a finite double, as the integer it is; NaN and the
    infinities give none. *)
Definition Math_floor (x : spec_float) : option Z :=
  match x with
  | S754_zero _ => Some 0
  | S754_finite s m e =>
      let n := if s then Z.neg m else Z.pos m in
      Some (if 0 <=? e then n * 2 ^ e else n / 2 ^ (- e))
  | _ => None
  end.

(** The doubles [Math.random()] may return: [+0], or a positive double
    [m * 2^e], normal or subnormal, below 1. *)
Definition Math_random_range (u : spec_float) : bool :=
  match u with
  | S754_zero false => true
  | S754_finite false m e =>
      bounded Number.prec Number.emax m e && (Z.pos m <? 2 ^ (- e))
  | _ => false
  end.

(** [Math.floor(Math.random() * length)], [u] being what [Math.random()]
    returned. *)
Definition random_index (u : spec_float) (length : nat) : option Z :=
  Math_floor (Number.mul u (Number.of_Z (Z.of_nat length))).

(** [array[i]] for an integer [i]; [None] is [undefined]. *)
Definition at_index {A : Type} (array : list A) (i : Z) : option A :=
  if i <? 0 then None else nth_error array (Z.to_nat i).

(** [getComputerChoice()] when [Math.random()] returns [u]. *)
Definition getComputerChoice_random (u : spec_float) : option string :=
  match random_index u (List.length CHOICES) with
  | Some randomIndex => at_index CHOICES randomIndex
  | None => None
  end.

(** [getResultMessage(result)] when [Math.random()] returns [u]: the outer
    [None] is the TypeError of reading [length] of [undefined], the inner
    one is [undefined]. *)
Definition getResultMessage_random (result : string) (u : spec_float)
  : option (option DOMString) :=
  match own RESULT_MESSAGES result with
  | Some messages =>
      match random_index u (List.length messages) with
      | Some i => Some (at_index messages i)
      | None => Some None
      end
  | None => None
  end.

(** What [shr_fexp] keeps while it shifts [k] bits out of [M]: the kept
    mantissa, the bits shifted out, and the round bit when it is set. *)
Definition shr_inv (M k : Z) (r : shr_record) : Prop :=
  0 <= shr_m r /\
  exists rem, M = shr_m r * 2 ^ k + rem /\ 0 <= rem < 2 ^ k /\
              (shr_r r = true -> 2 ^ k <= 2 * rem).

(* ================================================================= *)
(** ** Invariants of the further properties *)

(** What every sequence of operations keeps of the statistics. *)
Definition scores_ok (g : GameState) : Prop :=
  playerScore g = wins g /\ computerScore g = losses g /\
  0 <= wins g /\ 0 <= losses g /\ 0 <= ties g /\
  wins g + losses g + ties g <= gamesPlayed g /\
  0 <= currentStreak g <= wins g /\ currentStreak g <= bestStreak g.

(** The statistics of a page: every game counted is a win, a loss or a
    tie. *)
Definition tallied (g : GameState) : Prop :=
  scores_ok g /\ gamesPlayed g = wins g + losses g + ties g.

(** The seven counters [resetGame] writes are 0. *)
Definition counters_zero (g : GameState) : Prop :=
  playerScore g = 0 /\ computerScore g = 0 /\ gamesPlayed g = 0 /\
  wins g = 0 /\ losses g = 0 /\ ties g = 0 /\ currentStreak g = 0.

(** The stored text, when there is one, is the text of the statistics of
    the page; when there is none, nothing has been counted. *)
Definition stored_current (pg : Page) : Prop :=
  match rpsGameState (world pg) with
  | Some blob => blob = JSON_stringify (set_isPlaying true (game (world pg)))
  | None => counters_zero (game (world pg))
  end.

(** The five texts of the scoreboard. *)
Definition scoreboard (x : elements.t) : list DOMString :=
  [textContent (elements.playerScore x); textContent (elements.computerScore x);
   textContent (elements.gamesPlayed x); textContent (elements.winRate x);
   textContent (elements.streak x)].

(** Every pending round was started with one of the choices. *)
Definition started_by_script (pg : Page) : Prop :=
  Forall (fun c => In c CHOICES) (timers pg).

(** What the document shows of the round: while one is pending, the
    computer's icon carries thinking and the result text no result class;
    while none is, no thinking and at most one result class. *)
Definition display_ok (d : Document) : Prop :=
  guarded (page d) /\ started_by_script (page d) /\
  (timers (page d) <> [] ->
     thinking d /\ shown_results (elements.resultText (els d)) = []) /\
  (timers (page d) = [] ->
     ~ thinking d /\
     (List.length (shown_results (elements.resultText (els d))) <= 1)%nat).

Ltac dom :=
  cbv beta iota zeta delta
    [updateUI showThinkingAnimation hideThinkingAnimation resetChoiceDisplays
     run_callback
     elements.with_playerScore elements.with_computerScore
     elements.with_playerChoiceIcon elements.with_computerChoiceIcon
     elements.with_resultText elements.with_resetIcon_animation
     elements.with_gamesPlayed elements.with_winRate elements.with_streak
     elements.playerScore elements.computerScore elements.playerChoiceIcon
     elements.computerChoiceIcon elements.resultText elements.resetIcon_animation
     elements.gamesPlayed elements.winRate elements.streak].

(* ================================================================= *)
(** * Properties *)

(** ** The round resolver *)

(** C4. On the nine pairs of choices [determineWinner] answers 'tie' when
    the two choices are equal, and otherwise 'win' exactly for rock against
    scissors, paper against rock and scissors against paper, and 'lose' for
    every other pair. *)
Theorem determineWinner_table (player computer : string)
    (Hp : In player CHOICES) (Hc : In computer CHOICES) :
  (player = computer -> determineWinner player computer = RESULTS.TIE) /\
  (player <> computer ->
     (determineWinner player computer = RESULTS.WIN <-> In (player, computer) beats) /\
     (~ In (player, computer) beats -> determineWinner player computer = RESULTS.LOSE)).
Proof.
  choice_cases Hp; choice_cases Hc;
    (split; [ intros E; try discriminate E; reflexivity | intros N ]);
    try (exfalso; apply N; reflexivity);
    (split; [ split | ]);
    vm_compute; intros; try reflexivity; try discriminate; intuition (try congruence).
Qed.

Lemma determineWinner_table_witness :
  In "paper"%string CHOICES /\ In "rock"%string CHOICES /\
  determineWinner "paper" "rock" = RESULTS.WIN.
Proof.
  split; [ simpl; auto | split; [ simpl; auto | ] ].
  apply (determineWinner_table "paper" "rock");
    [ simpl; auto | simpl; auto | discriminate | simpl; auto ].
Defined.

(** C7. For every pair of choices the resolver answers 'win' one way round
    exactly when it answers 'lose' the other way round, and its answer is
    one of 'win', 'lose', 'tie', which are three different answers. *)
Theorem determineWinner_antisymmetric (a b : string)
    (Ha : In a CHOICES) (Hb : In b CHOICES) :
  (determineWinner a b = RESULTS.WIN <-> determineWinner b a = RESULTS.LOSE) /\
  ((determineWinner a b = RESULTS.WIN /\ determineWinner a b <> RESULTS.LOSE
      /\ determineWinner a b <> RESULTS.TIE) \/
   (determineWinner a b = RESULTS.LOSE /\ determineWinner a b <> RESULTS.WIN
      /\ determineWinner a b <> RESULTS.TIE) \/
   (determineWinner a b = RESULTS.TIE /\ determineWinner a b <> RESULTS.WIN
      /\ determineWinner a b <> RESULTS.LOSE)).
Proof.
  choice_cases Ha; choice_cases Hb; vm_compute;
    (split; [ split; intros E; try discriminate E; reflexivity | ]);
    first [ left; split; [ reflexivity | split; discriminate ]
          | right; left; split; [ reflexivity | split; discriminate ]
          | right; right; split; [ reflexivity | split; discriminate ] ].
Qed.

Lemma determineWinner_antisymmetric_witness :
  In "scissors"%string CHOICES /\ In "rock"%string CHOICES /\
  (determineWinner "scissors" "rock" = RESULTS.WIN <->
   determineWinner "rock" "scissors" = RESULTS.LOSE).
Proof.
  split; [ simpl; auto | split; [ simpl; auto | ] ].
  apply (determineWinner_antisymmetric "scissors" "rock"); simpl; auto.
Defined.

(** ** The session tracker *)

Lemma updateGameState_win (g : GameState) :
  updateGameState RESULTS.WIN g =
  mkGameState (playerScore g + 1) (computerScore g) (gamesPlayed g + 1)
    (wins g + 1) (losses g) (ties g) (currentStreak g + 1)
    (Z.max (bestStreak g) (currentStreak g + 1)) (isPlaying g).
Proof.
  unfold updateGameState; cbn.
  destruct (Z.gtb_spec (currentStreak g + 1) (bestStreak g));
    setters; f_equal; lia.
Qed.

Lemma updateGameState_lose (g : GameState) :
  updateGameState RESULTS.LOSE g =
  mkGameState (playerScore g) (computerScore g + 1) (gamesPlayed g + 1)
    (wins g) (losses g + 1) (ties g) 0 (bestStreak g) (isPlaying g).
Proof. reflexivity. Qed.

Lemma updateGameState_tie (g : GameState) :
  updateGameState RESULTS.TIE g =
  mkGameState (playerScore g) (computerScore g) (gamesPlayed g + 1)
    (wins g) (losses g) (ties g + 1) (currentStreak g) (bestStreak g)
    (isPlaying g).
Proof. reflexivity. Qed.

(** A result that is none of the three falls through the [switch]. *)
Lemma updateGameState_other (result : string) (g : GameState) :
  result <> RESULTS.WIN -> result <> RESULTS.LOSE -> result <> RESULTS.TIE ->
  updateGameState result g = set_gamesPlayed (gamesPlayed g + 1) g.
Proof.
  intros Hw Hl Ht. unfold updateGameState.
  apply String.eqb_neq in Hw, Hl, Ht. rewrite Hw, Hl, Ht. reflexivity.
Qed.

Lemma result_cases (result : string) :
  result = RESULTS.WIN \/ result = RESULTS.LOSE \/ result = RESULTS.TIE \/
  (result <> RESULTS.WIN /\ result <> RESULTS.LOSE /\ result <> RESULTS.TIE).
Proof.
  destruct (String.eqb_spec result RESULTS.WIN); [ auto | ].
  destruct (String.eqb_spec result RESULTS.LOSE); [ auto | ].
  destruct (String.eqb_spec result RESULTS.TIE); auto 10.
Qed.

Lemma updateGameState_gamesPlayed (result : string) (g : GameState) :
  gamesPlayed (updateGameState result g) = gamesPlayed g + 1.
Proof.
  destruct (result_cases result) as [E | [E | [E | (Hw & Hl & Ht)]]]; subst.
  - rewrite updateGameState_win; reflexivity.
  - rewrite updateGameState_lose; reflexivity.
  - rewrite updateGameState_tie; reflexivity.
  - rewrite updateGameState_other by assumption; reflexivity.
Qed.

Lemma updateGameState_isPlaying (result : string) (g : GameState) :
  isPlaying (updateGameState result g) = isPlaying g.
Proof.
  destruct (result_cases result) as [E | [E | [E | (Hw & Hl & Ht)]]]; subst.
  - rewrite updateGameState_win; reflexivity.
  - rewrite updateGameState_lose; reflexivity.
  - rewrite updateGameState_tie; reflexivity.
  - rewrite updateGameState_other by assumption; reflexivity.
Qed.


Lemma after_rounds_counts (results : list string) :
  Forall is_result results ->
  forall g,
    let g' := after_rounds results g in
    gamesPlayed g' = gamesPlayed g + Z.of_nat (List.length results) /\
    wins g' + losses g' + ties g' =
      wins g + losses g + ties g + Z.of_nat (List.length results).
Proof.
  induction 1 as [ | r results Hr _ IH ]; intros g.
  - cbn. lia.
  - cbn [after_rounds fold_left List.length].
    specialize (IH (updateGameState r g)). cbv zeta in IH.
    unfold after_rounds in IH. destruct IH as [IHg IHc].
    rewrite IHg, IHc, updateGameState_gamesPlayed.
    unfold is_result in Hr. choice_cases Hr.
    + rewrite updateGameState_win; cbn [wins losses ties]; lia.
    + rewrite updateGameState_lose; cbn [wins losses ties]; lia.
    + rewrite updateGameState_tie; cbn [wins losses ties]; lia.
Qed.

Lemma Forall_prefix {A} (P : A -> Prop) (l : list A) :
  Forall P l -> forall n, Forall P (firstn n l).
Proof.
  induction 1 as [ | x l Hx _ IH ]; intros [ | n ]; cbn; constructor; auto.
Qed.

(** C3. Starting from the zero state, after each of the calls of
    [updateGameState] with results among 'win', 'lose' and 'tie', the
    number of games equals wins + losses + ties and equals the number of
    calls made so far. *)
Theorem gamesPlayed_counts_rounds (results : list string) (n : nat)
    (Hr : Forall is_result results) (Hn : (n <= List.length results)%nat) :
  let g := after_rounds (firstn n results) gameState in
  gamesPlayed g = wins g + losses g + ties g /\ gamesPlayed g = Z.of_nat n.
Proof.
  cbv zeta.
  destruct (after_rounds_counts (firstn n results)) with (g := gameState) as [Hg Hc].
  { apply Forall_prefix; assumption. }
  rewrite length_firstn, Nat.min_l in Hg, Hc by assumption.
  cbn in Hg, Hc. lia.
Qed.

Lemma gamesPlayed_counts_rounds_witness :
  let g := after_rounds ["win"; "tie"]%string gameState in
  gamesPlayed g = wins g + losses g + ties g /\ gamesPlayed g = 2.
Proof.
  apply (gamesPlayed_counts_rounds ["win"; "tie"; "lose"]%string 2).
  - repeat (apply Forall_cons; [ unfold is_result; simpl; auto | ]); apply Forall_nil.
  - simpl; lia.
Defined.

Lemma streak_ok_updateGameState (result : string) (g : GameState) :
  streak_ok g -> streak_ok (updateGameState result g).
Proof.
  unfold streak_ok; intros H.
  destruct (result_cases result) as [E | [E | [E | (Hw & Hl & Ht)]]]; subst.
  - rewrite updateGameState_win; cbn; lia.
  - rewrite updateGameState_lose; cbn; lia.
  - rewrite updateGameState_tie; cbn; lia.
  - rewrite updateGameState_other by assumption; setters; lia.
Qed.

Lemma resetGame_eq (w : World) :
  resetGame w =
  mkWorld (mkGameState 0 0 0 0 0 0 0 (bestStreak (game w)) (isPlaying (game w))) None.
Proof. destruct w as [[ps cs gp wn l t cur best playing] stored]; reflexivity. Qed.

Lemma streak_ok_resetGame (w : World) :
  streak_ok (game w) -> streak_ok (game (resetGame w)).
Proof. rewrite resetGame_eq; unfold streak_ok; cbn; lia. Qed.

Lemma streak_ok_perform (ops : list operation) :
  forall w, streak_ok (game w) -> streak_ok (game (fold_left perform ops w)).
Proof.
  induction ops as [ | o ops IH ]; intros w H; [ exact H | ].
  cbn [fold_left]. apply IH. destruct o; cbn [perform].
  - apply streak_ok_updateGameState, H.
  - apply streak_ok_resetGame, H.
Qed.

(** C8. bestStreak >= currentStreak holds in the initial zero state and
    after every operation of any sequence of [updateGameState] calls, with
    any result, and [resetGame] calls that starts there. *)
Theorem bestStreak_bounds_currentStreak (ops : list operation) :
  currentStreak gameState <= bestStreak gameState /\
  forall n,
    let g := game (fold_left perform (firstn n ops) (mkWorld gameState None)) in
    currentStreak g <= bestStreak g.
Proof.
  split; [ cbn; lia | ].
  intros n. apply streak_ok_perform. unfold streak_ok; cbn; lia.
Qed.

(** C1. [resetGame] sets seven of the eight counters to 0 and removes the
    stored value, but it does not write bestStreak: after one recorded win
    and a reset, bestStreak is still 1 and the state is not the initial
    one. *)
Theorem resetGame_leaves_bestStreak :
  (forall w,
     let g := game (resetGame w) in
     playerScore g = 0 /\ computerScore g = 0 /\ gamesPlayed g = 0 /\
     wins g = 0 /\ losses g = 0 /\ ties g = 0 /\ currentStreak g = 0 /\
     bestStreak g = bestStreak (game w) /\ rpsGameState (resetGame w) = None) /\
  let w := resetGame (perform (mkWorld gameState None) (RecordRound RESULTS.WIN)) in
  bestStreak (game w) = 1 /\ game w <> gameState.
Proof.
  split.
  - intros w; rewrite resetGame_eq; cbn; repeat split; reflexivity.
  - vm_compute. split; [ reflexivity | discriminate ].
Qed.

(** The same through the page: a click on rock, the computer drawing
    scissors, a click on the reset button. *)
Lemma reset_button_leaves_bestStreak :
  bestStreak (game (world (run [Click rockBtn; DelayElapsed 2; Click resetBtn] fresh))) = 1.
Proof. reflexivity. Qed.

(** ** The win rate *)

Lemma calculateWinRate_no_games (g : GameState) :
  gamesPlayed g = 0 -> calculateWinRate g = S754_zero false.
Proof. intros H; unfold calculateWinRate; rewrite H; reflexivity. Qed.

(** The scenario of the specification: win, win, tie, lose, win. *)
Fact scenario_five_rounds :
  let g := after_rounds ["win"; "win"; "tie"; "lose"; "win"]%string gameState in
  gamesPlayed g = 5 /\ wins g = 3 /\ losses g = 1 /\ ties g = 1 /\
  currentStreak g = 1 /\ bestStreak g = 2 /\
  Number.to_Z (calculateWinRate g) = Some 60.
Proof. vm_compute. repeat split; reflexivity. Qed.

(** C6. [calculateWinRate] gives 0 when gamesPlayed is 0, 33 for one win in
    three games and 67 for two wins in three; but it rounds the binary64
    product (wins / gamesPlayed) * 100, not the quotient 100 * wins /
    gamesPlayed: with 23 wins in 40 games the product is
    8092405580431359 / 2^47, just below 57.5, and the result is 57 where
    rounding 57.5 half up gives 58, as does [Math.round] of the binary64
    quotient (100 * wins) / gamesPlayed. *)
Theorem calculateWinRate_23_of_40 :
  (forall g, Number.to_Z (calculateWinRate (set_gamesPlayed 0 g)) = Some 0) /\
  Number.to_Z (calculateWinRate (after_rounds ["win"; "lose"; "tie"]%string gameState)) = Some 33 /\
  Number.to_Z (calculateWinRate (after_rounds ["win"; "lose"; "win"]%string gameState)) = Some 67 /\
  let g := after_rounds (repeat RESULTS.WIN 23 ++ repeat RESULTS.LOSE 17) gameState in
  wins g = 23 /\ gamesPlayed g = 40 /\
  Number.to_Q (Number.mul (Number.div (Number.of_Z 23) (Number.of_Z 40)) (Number.of_Z 100))
    = Some (8092405580431359 # 140737488355328) /\
  Number.to_Z (calculateWinRate g) = Some 57 /\
  spec_winRate g = 58 /\
  Number.to_Z
    (Number.Math_round
       (Number.div (Number.mul (Number.of_Z 100) (Number.of_Z 23)) (Number.of_Z 40)))
    = Some 58.
Proof.
  split.
  - intros g; rewrite calculateWinRate_no_games by reflexivity; reflexivity.
  - vm_compute. repeat split; reflexivity.
Qed.

Lemma winRate_agrees_below_40 : winRate_agrees_below 40 = true.
Proof. vm_compute. reflexivity. Qed.

Lemma winRate_agrees_eq (g : GameState) :
  winRate_agrees (wins g) (gamesPlayed g) =
  match Number.to_Z (calculateWinRate g) with
  | Some r => r =? spec_winRate g
  | None => false
  end.
Proof. destruct g; reflexivity. Qed.

Lemma winRate_agrees_in (bound : nat) (w n : Z) :
  winRate_agrees_below bound = true ->
  0 <= w <= n -> n < Z.of_nat bound ->
  winRate_agrees w n = true.
Proof.
  unfold winRate_agrees_below; intros B Hw Hn.
  rewrite forallb_forall in B.
  assert (Bn := B (Z.to_nat n)). rewrite forallb_forall in Bn.
  assert (Bw := fun H => Bn H (Z.to_nat w)). cbv beta in Bw.
  rewrite !Z2Nat.id in Bw by lia.
  apply Bw; apply in_seq; lia.
Qed.

(** Below forty games the two agree: 23 wins in 40 games is the first
    state on which [calculateWinRate] misses the rounded quotient. *)
Lemma calculateWinRate_below_40 (g : GameState) :
  0 <= wins g <= gamesPlayed g -> gamesPlayed g < 40 ->
  Number.to_Z (calculateWinRate g) = Some (spec_winRate g).
Proof.
  intros Hw Hn.
  pose proof (winRate_agrees_in 40 (wins g) (gamesPlayed g)
                winRate_agrees_below_40 Hw Hn) as A.
  rewrite winRate_agrees_eq in A.
  destruct (Number.to_Z (calculateWinRate g)) as [ r | ]; [ | discriminate A ].
  f_equal. apply Z.eqb_eq, A.
Qed.

(** ** The text written by [saveGame] is read back by [loadGame] *)

Lemma append_assoc (a b c : string) :
  ((a ++ b) ++ c)%string = (a ++ (b ++ c))%string.
Proof. induction a as [ | x a IH ]; cbn; [ reflexivity | rewrite IH; reflexivity ]. Qed.

Lemma append_empty (a : string) : (a ++ EmptyString)%string = a.
Proof. induction a as [ | x a IH ]; cbn; [ reflexivity | rewrite IH; reflexivity ]. Qed.

Lemma lex_emit (st st' : JSON.lexer) (c : ascii) (ts : list JSON.token) (rest : string) :
  JSON.lex_char st c = Some (ts, st') ->
  JSON.lex st (String c rest) =
  match JSON.lex st' rest with
  | Some ts' => Some (ts ++ ts')
  | None => None
  end.
Proof. intros H; cbn [JSON.lex]; rewrite H; reflexivity. Qed.

Lemma lex_silent (st st' : JSON.lexer) (c : ascii) (rest : string) :
  JSON.lex_char st c = Some ([], st') ->
  JSON.lex st (String c rest) = JSON.lex st' rest.
Proof.
  intros H; rewrite (lex_emit _ _ _ _ _ H).
  destruct (JSON.lex st' rest); reflexivity.
Qed.

Lemma lex_digits (d : Decimal.uint) :
  forall acc rest,
    JSON.lex (JSON.LInt acc) (NilEmpty.string_of_uint d ++ rest) =
    JSON.lex (JSON.LInt (acc ++ NilEmpty.string_of_uint d)) rest.
Proof.
  induction d; intros acc rest; cbn [NilEmpty.string_of_uint append];
    try (rewrite append_empty; reflexivity);
    (rewrite lex_silent with (st' := JSON.LInt (JSON.snoc acc _)) by reflexivity;
     rewrite IHd; unfold JSON.snoc; rewrite append_assoc; reflexivity).
Qed.

Lemma unorm_leading (d : Decimal.uint) :
  Decimal.unorm d = Decimal.D0 Decimal.Nil \/ leading_nonzero (Decimal.unorm d).
Proof. induction d; cbn; auto. Qed.

Lemma to_uint_leading (p : positive) : leading_nonzero (Pos.to_uint p).
Proof.
  assert (E : Decimal.unorm (Pos.to_uint p) = Pos.to_uint p).
  { rewrite <- DecimalPos.Unsigned.to_of, DecimalPos.Unsigned.of_to. reflexivity. }
  destruct (unorm_leading (Pos.to_uint p)) as [H | H]; rewrite E in H.
  - destruct (DecimalPos.Unsigned.to_uint_nonzero p H).
  - exact H.
Qed.

Lemma lex_unsigned (d : Decimal.uint) (sign : string) (st : JSON.lexer) (rest : string) :
  leading_nonzero d ->
  (st = JSON.LStart /\ sign = EmptyString \/ st = JSON.LMinus sign) ->
  JSON.lex st (NilEmpty.string_of_uint d ++ rest) =
  JSON.lex (JSON.LInt (sign ++ NilEmpty.string_of_uint d)) rest.
Proof.
  intros Hd [[-> ->] | ->];
    destruct d; try contradiction; cbn [NilEmpty.string_of_uint append].
  all: try (rewrite lex_silent with (st' := JSON.LInt (String _ EmptyString)) by reflexivity;
            rewrite lex_digits; reflexivity).
  all: rewrite lex_silent with (st' := JSON.LInt (JSON.snoc sign _)) by reflexivity;
    rewrite lex_digits; unfold JSON.snoc; rewrite append_assoc; reflexivity.
Qed.

Lemma lex_of_integer (z : Z) (c : ascii) (rest : string)
      (ts : list JSON.token) (st : JSON.lexer) :
  ends_number c = true ->
  JSON.lex_start c = Some (ts, st) ->
  JSON.lex JSON.LStart (JSON.of_integer z ++ String c rest) =
  match JSON.lex st rest with
  | Some ts' => Some (JSON.TNum (JSON.of_integer z) :: ts ++ ts')
  | None => None
  end.
Proof.
  unfold ends_number; intros Hc Hs.
  apply andb_prop in Hc; destruct Hc as [Hc He].
  apply andb_prop in Hc; destruct Hc as [Hg Hd].
  apply negb_true_iff in Hg, Hd, He.
  assert (Hend : forall lit, JSON.lex_end_number lit c = Some (JSON.TNum lit :: ts, st)).
  { intros lit; unfold JSON.lex_end_number; rewrite Hs; reflexivity. }
  destruct z as [ | p | p ]; unfold JSON.of_integer; cbn [Z.to_int NilZero.string_of_int].
  - cbn [Pos.to_uint NilZero.string_of_uint NilEmpty.string_of_uint append].
    rewrite lex_silent with (st' := JSON.LZero "0") by reflexivity.
    rewrite lex_emit with (ts := JSON.TNum "0" :: ts) (st' := st); [ reflexivity | ].
    cbn [JSON.lex_char]. rewrite Hd, He. apply Hend.
  - pose proof (to_uint_leading p) as Hl.
    assert (E : NilZero.string_of_uint (Pos.to_uint p) = NilEmpty.string_of_uint (Pos.to_uint p)).
    { destruct (Pos.to_uint p); reflexivity || contradiction. }
    rewrite E, (lex_unsigned _ EmptyString JSON.LStart) by auto.
    match goal with
    | |- JSON.lex (JSON.LInt ?lit) _ = _ =>
        rewrite lex_emit with (ts := JSON.TNum lit :: ts) (st' := st); [ reflexivity | ]
    end.
    cbn [JSON.lex_char append]. rewrite Hg, Hd, He. apply Hend.
  - pose proof (to_uint_leading p) as Hl.
    assert (E : NilZero.string_of_uint (Pos.to_uint p) = NilEmpty.string_of_uint (Pos.to_uint p)).
    { destruct (Pos.to_uint p); reflexivity || contradiction. }
    rewrite E. cbn [append].
    rewrite lex_silent with (st' := JSON.LMinus "-") by reflexivity.
    rewrite (lex_unsigned _ "-" (JSON.LMinus "-")) by auto.
    match goal with
    | |- JSON.lex (JSON.LInt ?lit) _ = _ =>
        rewrite lex_emit with (ts := JSON.TNum lit :: ts) (st' := st); [ reflexivity | ]
    end.
    cbn [JSON.lex_char append]. rewrite Hg, Hd, He. apply Hend.
Qed.

Lemma to_integer_of_integer (z : Z) : JSON.to_integer (JSON.of_integer z) = Some z.
Proof.
  unfold JSON.to_integer, JSON.of_integer.
  rewrite NilZero.isi.
  - rewrite DecimalZ.of_to; reflexivity.
  - destruct z as [ | p | p ]; cbn; intros E; inversion E as [E'];
      exact (DecimalPos.Unsigned.to_uint_nonnil p E').
  - destruct z as [ | p | p ]; cbn; intros E; inversion E as [E'];
      exact (DecimalPos.Unsigned.to_uint_nonnil p E').
Qed.

Lemma lex_name (name : string) :
  all_plain name = true ->
  forall acc rest,
    JSON.lex (JSON.LString acc) (name ++ String JSON.quotation_mark rest) =
    match JSON.lex JSON.LStart rest with
    | Some ts => Some (JSON.TStr (acc ++ JSON.codes name) :: ts)
    | None => None
    end.
Proof.
  induction name as [ | c name IH ]; intros Hp acc rest.
  - cbn [append JSON.codes list_ascii_of_string map]. rewrite List.app_nil_r.
    rewrite lex_emit with (ts := [JSON.TStr acc]) (st' := JSON.LStart); reflexivity.
  - cbn [all_plain] in Hp. apply andb_prop in Hp; destruct Hp as [Hc Hp].
    unfold plain in Hc. cbv zeta in Hc.
    apply andb_prop in Hc; destruct Hc as [Hc H32].
    apply andb_prop in Hc; destruct Hc as [H34 H92].
    apply negb_true_iff in H34, H92, H32.
    cbn [append].
    rewrite lex_silent with (st' := JSON.LString (acc ++ [N_of_ascii c])).
    + rewrite IH by assumption.
      cbn [JSON.codes list_ascii_of_string map]. rewrite <- List.app_assoc. reflexivity.
    + cbn [JSON.lex_char]. cbv zeta. rewrite H34, H92, H32. reflexivity.
Qed.

Lemma lex_member (name : string) (z : Z) (c : ascii) (rest : string)
      (ts : list JSON.token) (st : JSON.lexer) :
  all_plain name = true ->
  ends_number c = true ->
  JSON.lex_start c = Some (ts, st) ->
  JSON.lex JSON.LStart (member name (JSON.of_integer z) ++ String c rest) =
  match JSON.lex st rest with
  | Some ts' =>
      Some (JSON.TStr (JSON.codes name) :: JSON.TColon
              :: JSON.TNum (JSON.of_integer z) :: ts ++ ts')
  | None => None
  end.
Proof.
  intros Hn Hc Hs. unfold member, JSON.quote.
  cbn [append]. rewrite !append_assoc. cbn [append].
  rewrite lex_silent with (st' := JSON.LString []) by reflexivity.
  rewrite lex_name by assumption. cbn [app].
  rewrite lex_emit with (ts := [JSON.TColon]) (st' := JSON.LStart) by reflexivity.
  rewrite (lex_of_integer z c rest ts st Hc Hs).
  destruct (JSON.lex st rest); reflexivity.
Qed.

Lemma parse_stringify (g : GameState) :
  JSON.parse (JSON_stringify g) = Some (JSON.Obj (saved_members g)).
Proof.
  unfold JSON.parse, JSON_stringify.
  cbn [append].
  rewrite lex_emit with (ts := [JSON.TLBrace]) (st' := JSON.LStart) by reflexivity.
  rewrite !(lex_member _ _ ","%char _ [JSON.TComma] JSON.LStart) by reflexivity.
  destruct g as [ps cs gp w l t cur best playing]; cbn [isPlaying].
  destruct playing; reflexivity.
Qed.

Lemma assign_counter (name : string) (set : Z -> GameState -> GameState)
      (z : Z) (g : GameState) :
  JSON.text_eqb (JSON.codes name) (JSON.codes "isPlaying") = false ->
  counter counters (JSON.codes name) = Some set ->
  assign_member (Some g) (JSON.codes name, JSON.Num (JSON.of_integer z)) =
  Some (set z g).
Proof.
  intros Hn Hc; unfold assign_member.
  rewrite Hn, Hc, to_integer_of_integer; reflexivity.
Qed.

Lemma assign_saved_members (target g : GameState) :
  fold_left assign_member (saved_members g) (Some target) = Some g.
Proof.
  unfold saved_members. cbn [fold_left].
  rewrite (assign_counter "playerScore" set_playerScore) by reflexivity.
  rewrite (assign_counter "computerScore" set_computerScore) by reflexivity.
  rewrite (assign_counter "gamesPlayed" set_gamesPlayed) by reflexivity.
  rewrite (assign_counter "wins" set_wins) by reflexivity.
  rewrite (assign_counter "losses" set_losses) by reflexivity.
  rewrite (assign_counter "ties" set_ties) by reflexivity.
  rewrite (assign_counter "currentStreak" set_currentStreak) by reflexivity.
  rewrite (assign_counter "bestStreak" set_bestStreak) by reflexivity.
  destruct target, g; reflexivity.
Qed.

Lemma loadGame_saved (g0 g : GameState) :
  loadGame (mkWorld g0 (Some (JSON_stringify g))) =
  Returns (mkWorld g (Some (JSON_stringify g))).
Proof.
  unfold loadGame. cbn [rpsGameState].
  rewrite parse_stringify. cbn [Object_assign].
  rewrite assign_saved_members.
  reflexivity.
Qed.

(** ** Loading *)

Lemma loadGame_stored (w : World) (s : string) :
  rpsGameState w = Some s -> s <> EmptyString ->
  loadGame w =
  match JSON.parse s with
  | None => SyntaxError w
  | Some parsed =>
      match Object_assign (game w) parsed with
      | Some g => Returns (with_game g w)
      | None => NotCovered
      end
  end.
Proof.
  intros Hs Hn; unfold loadGame; rewrite Hs.
  destruct s; [ contradiction Hn; reflexivity | reflexivity ].
Qed.

Lemma loadGame_SyntaxError (w w' : World) :
  loadGame w = SyntaxError w' ->
  w' = w /\
  exists s, rpsGameState w = Some s /\ s <> EmptyString /\ JSON.parse s = None.
Proof.
  unfold loadGame. destruct (rpsGameState w) as [ s | ] eqn:Hs; [ | discriminate ].
  destruct s as [ | c s ]; [ discriminate | ].
  destruct (JSON.parse (String c s)) as [ parsed | ] eqn:Hp.
  - destruct (Object_assign (game w) parsed); discriminate.
  - intros E; injection E as <-. split; [ reflexivity | ].
    exists (String c s). repeat split; [ discriminate | assumption ].
Qed.

(** What C2 says of a corrupt value fails when the stored text is the
    first thirty characters of a saved state: [JSON.parse] rejects it and
    [loadGame], called from [init] on the initial state, does not return
    normally. *)
Lemma loadGame_throws_on_truncated_value :
  JSON.parse truncated = None /\
  loadGame (mkWorld gameState (Some truncated)) =
    SyntaxError (mkWorld gameState (Some truncated)) /\
  init (Some truncated) = SyntaxError (mkWorld gameState (Some truncated)) /\
  ~ (exists w', loadGame (mkWorld gameState (Some truncated)) = Returns w').
Proof.
  split; [ reflexivity | ]. split; [ reflexivity | ].
  split; [ reflexivity | ].
  intros [w' E]. vm_compute in E. discriminate E.
Qed.

(** C2, amended. [loadGame] returns normally, the state exactly as it was,
    when nothing or the empty text is stored; when the stored text is not
    empty and [JSON.parse] rejects it, [loadGame] ends with the
    [SyntaxError] of [JSON.parse], the state again exactly as it was; and it
    ends with a [SyntaxError] in no other case. *)
Theorem loadGame_missing_or_corrupt (g : GameState) (s : string)
    (Hs : s <> EmptyString) (Hc : JSON.parse s = None) :
  loadGame (mkWorld g None) = Returns (mkWorld g None) /\
  loadGame (mkWorld g (Some EmptyString)) = Returns (mkWorld g (Some EmptyString)) /\
  loadGame (mkWorld g (Some s)) = SyntaxError (mkWorld g (Some s)) /\
  (forall w w', loadGame w = SyntaxError w' ->
     w' = w /\
     exists s', rpsGameState w = Some s' /\ s' <> EmptyString /\ JSON.parse s' = None).
Proof.
  split; [ reflexivity | ]. split; [ reflexivity | ]. split.
  - rewrite (loadGame_stored _ s) by (reflexivity || assumption).
    rewrite Hc; reflexivity.
  - apply loadGame_SyntaxError.
Qed.

Lemma loadGame_missing_or_corrupt_witness :
  truncated <> EmptyString /\ JSON.parse truncated = None /\
  loadGame (mkWorld gameState (Some truncated)) =
  SyntaxError (mkWorld gameState (Some truncated)).
Proof.
  split; [ discriminate | ]. split; [ reflexivity | ].
  apply (loadGame_missing_or_corrupt gameState truncated);
    [ discriminate | reflexivity ].
Defined.

(** ** Rounds *)

Lemma resetGame_isPlaying (w : World) :
  isPlaying (game (resetGame w)) = isPlaying (game w).
Proof. rewrite resetGame_eq; reflexivity. Qed.

Lemma playRound_ignored (playerChoice : string) (pg : Page) :
  isPlaying (game (world pg)) = true -> playRound playerChoice pg = pg.
Proof. intros H; unfold playRound; rewrite H; reflexivity. Qed.

Lemma playRound_started (playerChoice : string) (pg : Page) :
  isPlaying (game (world pg)) = false ->
  playRound playerChoice pg =
  mkPage (with_game (set_isPlaying true (game (world pg))) (world pg))
         (timers pg ++ [playerChoice]).
Proof. intros H; unfold playRound; rewrite H; reflexivity. Qed.

Lemma playRound_resume_game (playerChoice : string) (randomIndex : nat) (w : World) :
  game (playRound_resume playerChoice randomIndex w) =
  set_isPlaying false
    (updateGameState (determineWinner playerChoice (getComputerChoice randomIndex))
                     (game w)).
Proof. reflexivity. Qed.

Lemma playRound_resume_stored (playerChoice : string) (randomIndex : nat) (w : World) :
  rpsGameState (playRound_resume playerChoice randomIndex w) =
  Some (JSON_stringify
          (updateGameState (determineWinner playerChoice (getComputerChoice randomIndex))
                           (game w))).
Proof. reflexivity. Qed.

Lemma guarded_playRound (playerChoice : string) (pg : Page) :
  guarded pg -> guarded (playRound playerChoice pg).
Proof.
  intros H. destruct (isPlaying (game (world pg))) eqn:E.
  - rewrite playRound_ignored by assumption. exact H.
  - rewrite playRound_started by assumption.
    destruct H as [H | [_ H]]; [ | congruence ].
    right; cbn. rewrite H. split; [ exists playerChoice | ]; reflexivity.
Qed.

Lemma guarded_reset (pg : Page) : guarded pg -> guarded (on_page resetGame pg).
Proof.
  unfold guarded, on_page; cbn [timers world].
  rewrite resetGame_isPlaying. exact (fun H => H).
Qed.

Lemma keydown_cases (key : string) (pg : Page) :
  keydown key pg = pg \/
  (exists playerChoice, keydown key pg = playRound playerChoice pg) \/
  (isPlaying (game (world pg)) = false /\ keydown key pg = on_page resetGame pg).
Proof.
  unfold keydown. destruct (isPlaying (game (world pg))); [ auto | ].
  repeat match goal with
         | |- context [ if ?b then _ else _ ] => destruct b
         end; eauto.
Qed.

Lemma guarded_handle (pg : Page) (e : event) : guarded pg -> guarded (handle pg e).
Proof.
  intros H. destruct e as [ [ | | | ] | key | randomIndex ]; cbn [handle].
  - apply guarded_playRound, H.
  - apply guarded_playRound, H.
  - apply guarded_playRound, H.
  - apply guarded_reset, H.
  - destruct (keydown_cases key pg) as [-> | [[c ->] | [_ ->]]].
    + exact H.
    + apply guarded_playRound, H.
    + apply guarded_reset, H.
  - destruct H as [H | [[p H] _]]; rewrite H.
    + left; exact H.
    + left; reflexivity.
Qed.

Lemma guarded_run (events : list event) :
  forall pg, guarded pg -> guarded (run events pg).
Proof.
  induction events as [ | e events IH ]; intros pg H; [ exact H | ].
  apply IH, guarded_handle, H.
Qed.

(** C9. Along any sequence of events on a page where no round is pending,
    at most one round is pending at any time; a [playRound] called while the
    guard is set changes nothing and starts nothing; a [playRound] called
    while it is clear sets it and starts the one pending round; and when the
    timer of the pending round fires the round completes with the guard
    cleared, so that the next [playRound] starts a round again. *)
Theorem rounds_do_not_overlap (events : list event) (pg : Page)
    (H : timers pg = []) :
  let pg' := run events pg in
  (List.length (timers pg') <= 1)%nat /\
  (forall playerChoice,
     isPlaying (game (world pg')) = true -> playRound playerChoice pg' = pg') /\
  (forall playerChoice,
     isPlaying (game (world pg')) = false ->
     playRound playerChoice pg' =
     mkPage (with_game (set_isPlaying true (game (world pg'))) (world pg'))
            [playerChoice]) /\
  (forall pending randomIndex,
     timers pg' = [pending] ->
     let completed := handle pg' (DelayElapsed randomIndex) in
     isPlaying (game (world completed)) = false /\
     timers completed = [] /\
     gamesPlayed (game (world completed)) = gamesPlayed (game (world pg')) + 1 /\
     forall playerChoice,
       timers (playRound playerChoice completed) = [playerChoice] /\
       isPlaying (game (world (playRound playerChoice completed))) = true).
Proof.
  cbv zeta.
  assert (G : guarded (run events pg)) by (apply guarded_run; left; exact H).
  set (pg' := run events pg) in *. clearbody pg'.
  split; [ | split; [ | split ] ].
  - destruct G as [G | [[p G] _]]; rewrite G; cbn; lia.
  - intros c; apply playRound_ignored.
  - intros c E. rewrite playRound_started by assumption.
    destruct G as [G | [_ G]]; [ rewrite G; reflexivity | congruence ].
  - intros p i T. cbn [handle]. rewrite T. cbn [world timers].
    rewrite playRound_resume_game.
    split; [ reflexivity | ]. split; [ reflexivity | ]. split.
    + apply updateGameState_gamesPlayed.
    + intros c. rewrite playRound_started by reflexivity. split; reflexivity.
Qed.

Lemma rounds_do_not_overlap_witness :
  timers fresh = [] /\
  (List.length (timers (run [Click rockBtn; Click paperBtn; Keydown "s"] fresh)) <= 1)%nat.
Proof.
  split; [ reflexivity | ].
  apply (rounds_do_not_overlap [Click rockBtn; Click paperBtn; Keydown "s"] fresh).
  reflexivity.
Defined.

(** ** Restoring a saved state *)

Lemma saved_with_guard_playRound (playerChoice : string) (pg : Page) :
  saved_with_guard (world pg) -> saved_with_guard (world (playRound playerChoice pg)).
Proof.
  unfold playRound. destruct (isPlaying (game (world pg))); intros H; exact H.
Qed.

Lemma saved_with_guard_reset (pg : Page) :
  saved_with_guard (world (on_page resetGame pg)).
Proof.
  unfold on_page; cbn [world]. rewrite resetGame_eq. intros blob; discriminate.
Qed.

Lemma saved_with_guard_handle (pg : Page) (e : event) :
  guarded pg -> saved_with_guard (world pg) -> saved_with_guard (world (handle pg e)).
Proof.
  intros G H. destruct e as [ [ | | | ] | key | randomIndex ]; cbn [handle].
  - apply saved_with_guard_playRound, H.
  - apply saved_with_guard_playRound, H.
  - apply saved_with_guard_playRound, H.
  - apply saved_with_guard_reset.
  - destruct (keydown_cases key pg) as [-> | [[c ->] | [_ ->]]].
    + exact H.
    + apply saved_with_guard_playRound, H.
    + apply saved_with_guard_reset.
  - destruct G as [G | [[p G] P]]; rewrite G; [ exact H | ].
    cbn [world]. intros blob. rewrite playRound_resume_stored.
    intros E; injection E as <-.
    eexists; split; [ reflexivity | ].
    rewrite updateGameState_isPlaying. exact P.
Qed.

Lemma saved_with_guard_run (events : list event) :
  forall pg, guarded pg -> saved_with_guard (world pg) ->
             saved_with_guard (world (run events pg)).
Proof.
  induction events as [ | e events IH ]; intros pg G H; [ exact H | ].
  cbn [run fold_left]. apply IH.
  - apply guarded_handle, G.
  - apply saved_with_guard_handle; assumption.
Qed.

(** On a stuck page an event changes nothing, except that a click on the
    reset button resets. *)
Lemma stuck_handle (pg : Page) (e : event) :
  stuck pg -> handle pg e = pg \/ handle pg e = on_page resetGame pg.
Proof.
  intros [T P]. destruct e as [ [ | | | ] | key | randomIndex ]; cbn [handle].
  - left; apply playRound_ignored, P.
  - left; apply playRound_ignored, P.
  - left; apply playRound_ignored, P.
  - right; reflexivity.
  - left; unfold keydown; rewrite P; reflexivity.
  - left; rewrite T; reflexivity.
Qed.

Lemma stuck_reset (pg : Page) : stuck pg -> stuck (on_page resetGame pg).
Proof.
  unfold stuck, on_page; cbn [timers world]. rewrite resetGame_isPlaying.
  exact (fun H => H).
Qed.

Lemma restored_or_reset_reset (g : GameState) (pg : Page) :
  restored_or_reset g pg -> restored_or_reset g (on_page resetGame pg).
Proof.
  unfold restored_or_reset, on_page; cbn [world]. rewrite !resetGame_eq. cbn [game].
  intros [-> | ->]; right; reflexivity.
Qed.

Lemma stuck_run (g : GameState) (events : list event) :
  forall pg, stuck pg -> restored_or_reset g pg ->
             stuck (run events pg) /\ restored_or_reset g (run events pg).
Proof.
  induction events as [ | e events IH ]; intros pg S R; [ split; assumption | ].
  cbn [run fold_left]. destruct (stuck_handle pg e S) as [-> | ->].
  - apply IH; assumption.
  - apply IH; [ apply stuck_reset, S | apply restored_or_reset_reset, R ].
Qed.

(** C10. Whatever a visit that began on the fresh page has left in the
    storage is the text of a state whose isPlaying is true.  The next visit
    loads exactly that state, so it begins with the guard set and no round
    pending, and it stays so: after any events, every [playRound] returns
    at once, and the statistics are those that were loaded or, after a
    click on the reset button, their reset. *)
Theorem saved_guard_blocks_rounds (events1 events2 : list event) (blob : string)
    (H : rpsGameState (world (run events1 fresh)) = Some blob) :
  exists g,
    blob = JSON_stringify g /\ isPlaying g = true /\
    init (Some blob) = Returns (mkWorld g (Some blob)) /\
    let pg := run events2 (mkPage (mkWorld g (Some blob)) []) in
    timers pg = [] /\
    isPlaying (game (world pg)) = true /\
    (game (world pg) = g \/ game (world pg) = game (resetGame (mkWorld g None))) /\
    forall playerChoice, playRound playerChoice pg = pg.
Proof.
  destruct (saved_with_guard_run events1 fresh) with (blob := blob)
    as (g & -> & P).
  { left; reflexivity. }
  { intros b; discriminate. }
  { exact H. }
  exists g. split; [ reflexivity | ]. split; [ exact P | ].
  split; [ apply loadGame_saved | ].
  cbv zeta.
  destruct (stuck_run g events2 (mkPage (mkWorld g (Some (JSON_stringify g))) []))
    as [[T S] R].
  { split; [ reflexivity | exact P ]. }
  { left; reflexivity. }
  split; [ exact T | ]. split; [ exact S | ]. split; [ exact R | ].
  intros c; apply playRound_ignored, S.
Qed.

Lemma saved_guard_blocks_rounds_witness :
  exists g,
    JSON_stringify (set_isPlaying true (updateGameState RESULTS.WIN gameState)) =
      JSON_stringify g /\
    isPlaying g = true /\
    init (Some (JSON_stringify (set_isPlaying true (updateGameState RESULTS.WIN gameState))))
      = Returns (mkWorld g (Some (JSON_stringify (set_isPlaying true (updateGameState RESULTS.WIN gameState))))) /\
    let pg := run [Click paperBtn; Keydown "s"; DelayElapsed 0]
                  (mkPage (mkWorld g (Some (JSON_stringify (set_isPlaying true (updateGameState RESULTS.WIN gameState))))) []) in
    timers pg = [] /\
    isPlaying (game (world pg)) = true /\
    (game (world pg) = g \/ game (world pg) = game (resetGame (mkWorld g None))) /\
    forall playerChoice, playRound playerChoice pg = pg.
Proof.
  apply (saved_guard_blocks_rounds [Click rockBtn; DelayElapsed 2]
           [Click paperBtn; Keydown "s"; DelayElapsed 0]).
  reflexivity.
Defined.

(* ================================================================= *)
(** * Further properties *)

(** ** The resolver on arbitrary strings *)

(** X1. Whatever two strings [determineWinner] is given, choices or not, it
    answers 'win', 'lose' or 'tie', and it answers 'tie' exactly when the
    two strings are equal. *)
Theorem determineWinner_any_strings (playerChoice computerChoice : string) :
  is_result (determineWinner playerChoice computerChoice) /\
  (determineWinner playerChoice computerChoice = RESULTS.TIE <->
   playerChoice = computerChoice).
Proof.
  unfold determineWinner, is_result.
  destruct (String.eqb_spec playerChoice computerChoice) as [E | N].
  - split; [ simpl; auto | tauto ].
  - destruct (property winConditions playerChoice) as [ beaten | ];
      [ destruct (String.eqb beaten computerChoice) | ];
      (split; [ simpl; auto | split; [ discriminate | contradiction ] ]).
Qed.

(** X2. The game is fair: for each choice of the player and each of the
    three results there is exactly one index below [CHOICES.length] for
    which the computer's choice gives that result. *)
Theorem each_result_once (playerChoice result : string)
    (Hp : In playerChoice CHOICES) (Hr : is_result result) :
  exists i, (i < List.length CHOICES)%nat /\
    determineWinner playerChoice (getComputerChoice i) = result /\
    forall j, (j < List.length CHOICES)%nat ->
              determineWinner playerChoice (getComputerChoice j) = result -> j = i.
Proof.
  unfold is_result in Hr. choice_cases Hp; choice_cases Hr.
  all: first
    [ exists 0%nat; split; [ simpl; lia | split; [ reflexivity | ] ]
    | exists 1%nat; split; [ simpl; lia | split; [ reflexivity | ] ]
    | exists 2%nat; split; [ simpl; lia | split; [ reflexivity | ] ] ].
  all: intros [ | [ | [ | j ] ] ] Hj E; try reflexivity; try discriminate E;
    simpl in Hj; lia.
Qed.

Lemma each_result_once_witness :
  exists i, (i < List.length CHOICES)%nat /\
    determineWinner "rock" (getComputerChoice i) = "lose"%string /\
    forall j, (j < List.length CHOICES)%nat ->
              determineWinner "rock" (getComputerChoice j) = "lose"%string -> j = i.
Proof.
  apply (each_result_once "rock" "lose").
  - simpl; auto.
  - unfold is_result; simpl; auto.
Defined.

(** ** The statistics *)


Lemma scores_ok_updateGameState (result : string) (g : GameState) :
  scores_ok g -> scores_ok (updateGameState result g).
Proof.
  unfold scores_ok; intros H.
  destruct (result_cases result) as [E | [E | [E | (Hw & Hl & Ht)]]]; subst.
  - rewrite updateGameState_win; cbn; lia.
  - rewrite updateGameState_lose; cbn; lia.
  - rewrite updateGameState_tie; cbn; lia.
  - rewrite updateGameState_other by assumption; setters; lia.
Qed.

Lemma scores_ok_resetGame (w : World) :
  scores_ok (game w) -> scores_ok (game (resetGame w)).
Proof. rewrite resetGame_eq; unfold scores_ok; cbn; lia. Qed.

Lemma scores_ok_gameState : scores_ok gameState.
Proof. unfold scores_ok; cbn; lia. Qed.

(** X4. After any sequence of [updateGameState] calls, with any strings as
    results, and [resetGame] calls from the initial state: playerScore
    equals wins, computerScore equals losses, no counter is negative, wins +
    losses + ties is at most gamesPlayed, and currentStreak is at most wins
    and at most bestStreak. *)
Theorem scores_mirror_wins_and_losses (ops : list operation) :
  scores_ok (game (fold_left perform ops (mkWorld gameState None))).
Proof.
  assert (G : forall w, scores_ok (game w) ->
                        scores_ok (game (fold_left perform ops w))).
  { induction ops as [ | o ops IH ]; intros w H; [ exact H | ].
    cbn [fold_left]. apply IH. destruct o; cbn [perform].
    - apply scores_ok_updateGameState, H.
    - apply scores_ok_resetGame, H. }
  apply G, scores_ok_gameState.
Qed.

(** ** The statistics of a page *)

Lemma determineWinner_result_cases (playerChoice computerChoice : string) :
  determineWinner playerChoice computerChoice = RESULTS.WIN \/
  determineWinner playerChoice computerChoice = RESULTS.LOSE \/
  determineWinner playerChoice computerChoice = RESULTS.TIE.
Proof.
  unfold determineWinner.
  destruct (String.eqb playerChoice computerChoice); [ auto | ].
  destruct (property winConditions playerChoice) as [ beaten | ]; [ | auto ].
  destruct (String.eqb beaten computerChoice); auto.
Qed.

Lemma tallied_round (playerChoice computerChoice : string) (g : GameState) :
  tallied g -> tallied (updateGameState (determineWinner playerChoice computerChoice) g).
Proof.
  intros [S T]. split; [ apply scores_ok_updateGameState, S | ].
  destruct (determineWinner_result_cases playerChoice computerChoice)
    as [-> | [-> | ->]].
  - rewrite updateGameState_win; cbn; lia.
  - rewrite updateGameState_lose; cbn; lia.
  - rewrite updateGameState_tie; cbn; lia.
Qed.

Lemma tallied_set_isPlaying (b : bool) (g : GameState) :
  tallied g -> tallied (set_isPlaying b g).
Proof. destruct g; exact (fun H => H). Qed.

Lemma tallied_reset (w : World) : tallied (game w) -> tallied (game (resetGame w)).
Proof.
  intros [S T]. split; [ apply scores_ok_resetGame, S | ].
  rewrite resetGame_eq; reflexivity.
Qed.

Lemma tallied_playRound (playerChoice : string) (pg : Page) :
  tallied (game (world pg)) -> tallied (game (world (playRound playerChoice pg))).
Proof.
  unfold playRound. destruct (isPlaying (game (world pg))); intros H; [ exact H | ].
  cbn [world game with_game]. apply tallied_set_isPlaying, H.
Qed.

Lemma tallied_handle (pg : Page) (e : event) :
  tallied (game (world pg)) -> tallied (game (world (handle pg e))).
Proof.
  intros H. destruct e as [ [ | | | ] | key | randomIndex ]; cbn [handle].
  - apply tallied_playRound, H.
  - apply tallied_playRound, H.
  - apply tallied_playRound, H.
  - apply tallied_reset, H.
  - destruct (keydown_cases key pg) as [-> | [[c ->] | [_ ->]]].
    + exact H.
    + apply tallied_playRound, H.
    + apply tallied_reset, H.
  - destruct (timers pg) as [ | p rest ]; [ exact H | ].
    cbn [world]. rewrite playRound_resume_game.
    apply tallied_set_isPlaying, tallied_round, H.
Qed.

(** X5. On a page, whatever the user does and whatever the computer draws,
    every game counted is a win, a loss or a tie: after any sequence of
    events from the fresh page gamesPlayed = wins + losses + ties,
    playerScore = wins, computerScore = losses and
    0 <= currentStreak <= bestStreak. *)
Theorem page_statistics_consistent (events : list event) :
  let g := game (world (run events fresh)) in
  gamesPlayed g = wins g + losses g + ties g /\
  playerScore g = wins g /\ computerScore g = losses g /\
  0 <= currentStreak g <= bestStreak g.
Proof.
  cbv zeta.
  assert (G : forall pg, tallied (game (world pg)) ->
                         tallied (game (world (run events pg)))).
  { induction events as [ | e events IH ]; intros pg H; [ exact H | ].
    cbn [run fold_left]. apply IH, tallied_handle, H. }
  destruct (G fresh) as [S T].
  { split; [ apply scores_ok_gameState | reflexivity ]. }
  unfold scores_ok in S. lia.
Qed.

(** ** What is stored *)

Lemma set_isPlaying_twice (a b : bool) (g : GameState) :
  set_isPlaying a (set_isPlaying b g) = set_isPlaying a g.
Proof. reflexivity. Qed.

Lemma set_isPlaying_same (g : GameState) :
  set_isPlaying (isPlaying g) g = g.
Proof. destruct g; reflexivity. Qed.

Lemma counters_zero_set_isPlaying (b : bool) (g : GameState) :
  counters_zero g -> counters_zero (set_isPlaying b g).
Proof. destruct g; exact (fun H => H). Qed.

Lemma stored_current_playRound (playerChoice : string) (pg : Page) :
  stored_current pg -> stored_current (playRound playerChoice pg).
Proof.
  unfold playRound. destruct (isPlaying (game (world pg))); intros H; [ exact H | ].
  unfold stored_current in *. cbn [world game with_game rpsGameState].
  destruct (rpsGameState (world pg)).
  - rewrite set_isPlaying_twice. exact H.
  - apply counters_zero_set_isPlaying, H.
Qed.

Lemma stored_current_reset (pg : Page) : stored_current (on_page resetGame pg).
Proof.
  unfold stored_current, on_page; cbn [world]. rewrite resetGame_eq.
  cbn. unfold counters_zero; cbn. repeat split; reflexivity.
Qed.

Lemma stored_current_handle (pg : Page) (e : event) :
  guarded pg -> stored_current pg -> stored_current (handle pg e).
Proof.
  intros G H. destruct e as [ [ | | | ] | key | randomIndex ]; cbn [handle].
  - apply stored_current_playRound, H.
  - apply stored_current_playRound, H.
  - apply stored_current_playRound, H.
  - apply stored_current_reset.
  - destruct (keydown_cases key pg) as [-> | [[c ->] | [_ ->]]].
    + exact H.
    + apply stored_current_playRound, H.
    + apply stored_current_reset.
  - destruct G as [G | [[p G] P]]; rewrite G; [ exact H | ].
    unfold stored_current. cbn [world].
    rewrite playRound_resume_stored, playRound_resume_game, set_isPlaying_twice.
    f_equal.
    rewrite <- P, <- (updateGameState_isPlaying
                        (determineWinner p (getComputerChoice randomIndex))).
    symmetry; apply set_isPlaying_same.
Qed.

Lemma stored_current_run (events : list event) :
  forall pg, guarded pg -> stored_current pg -> stored_current (run events pg).
Proof.
  induction events as [ | e events IH ]; intros pg G H; [ exact H | ].
  cbn [run fold_left]. apply IH.
  - apply guarded_handle, G.
  - apply stored_current_handle; assumption.
Qed.

(** X6. What is stored is never stale.  After any sequence of events from
    the fresh page: if a text is stored, loading it on the next visit gives
    exactly the statistics the page has now (with isPlaying true); if none
    is stored, the seven counters that [resetGame] writes are all 0 now.
    No completed round is lost by closing the page. *)
Theorem stored_statistics_are_current (events : list event) :
  let pg := run events fresh in
  match rpsGameState (world pg) with
  | Some blob =>
      init (Some blob) =
      Returns (mkWorld (set_isPlaying true (game (world pg))) (Some blob))
  | None => counters_zero (game (world pg))
  end.
Proof.
  cbv zeta.
  pose proof (stored_current_run events fresh) as H.
  unfold stored_current in H.
  destruct (rpsGameState (world (run events fresh))) as [ blob | ].
  - rewrite H.
    + apply loadGame_saved.
    + left; reflexivity.
    + unfold counters_zero; cbn; repeat split; reflexivity.
  - apply H.
    + left; reflexivity.
    + unfold counters_zero; cbn; repeat split; reflexivity.
Qed.


(** ** Loading what was not saved by the script *)




(** ** Keyboard and buttons *)

(** X9. A shortcut does what its button does, in every state of the page:
    a key that lower-cases to r or 1 is a click on rock, to p or 2 a click
    on paper, to s or 3 a click on scissors.  Escape is a click on the
    reset button only while isPlaying is clear: while it is set the key
    does nothing, and the button still resets. *)
Theorem shortcuts_are_buttons (key : string) (pg : Page) :
  (In (toLowerCase key) ["r"; "1"]%string ->
     handle pg (Keydown key) = handle pg (Click rockBtn)) /\
  (In (toLowerCase key) ["p"; "2"]%string ->
     handle pg (Keydown key) = handle pg (Click paperBtn)) /\
  (In (toLowerCase key) ["s"; "3"]%string ->
     handle pg (Keydown key) = handle pg (Click scissorsBtn)) /\
  (toLowerCase key = "escape"%string ->
     handle pg (Keydown key) =
     if isPlaying (game (world pg)) then pg else handle pg (Click resetBtn)).
Proof.
  cbn [handle]. unfold keydown, playRound.
  destruct (isPlaying (game (world pg))).
  - repeat split; intros _; reflexivity.
  - repeat split; intros H; simpl in H;
      repeat match type of H with
             | _ \/ _ => destruct H as [H | H]
             | False => contradiction
             end;
      match type of H with
      | toLowerCase _ = _ => rewrite H
      | _ => rewrite <- H
      end; reflexivity.
Qed.

Lemma shortcuts_are_buttons_witness :
  handle fresh (Keydown "R") = handle fresh (Click rockBtn).
Proof.
  apply (shortcuts_are_buttons "R" fresh). simpl; auto.
Defined.

(** ** A reset while a round is pending *)

(** X10. [resetGame] does not cancel the round that is waiting for its
    timer: after a click on the reset button the round is still pending
    and the guard still set, and when the timer fires the round is counted
    as the first game of the zeroed statistics and stored. *)
Theorem reset_does_not_cancel_round (pg : Page) (pending : string) (randomIndex : nat)
    (H : timers pg = [pending]) :
  let reset := handle pg (Click resetBtn) in
  let completed := handle reset (DelayElapsed randomIndex) in
  timers reset = [pending] /\
  isPlaying (game (world reset)) = isPlaying (game (world pg)) /\
  rpsGameState (world reset) = None /\
  gamesPlayed (game (world completed)) = 1 /\
  wins (game (world completed)) + losses (game (world completed))
    + ties (game (world completed)) = 1 /\
  rpsGameState (world completed) <> None /\
  timers completed = [].
Proof.
  cbv zeta. cbn [handle on_page timers world]. rewrite H.
  cbn [world timers]. rewrite playRound_resume_game, playRound_resume_stored.
  rewrite !resetGame_eq. cbn [game rpsGameState].
  split; [ reflexivity | ]. split; [ reflexivity | ]. split; [ reflexivity | ].
  destruct (determineWinner_result_cases pending (getComputerChoice randomIndex))
    as [-> | [-> | ->]].
  - rewrite updateGameState_win; cbn.
    repeat split; try reflexivity; discriminate.
  - rewrite updateGameState_lose; cbn.
    repeat split; try reflexivity; discriminate.
  - rewrite updateGameState_tie; cbn.
    repeat split; try reflexivity; discriminate.
Qed.

Lemma reset_does_not_cancel_round_witness :
  gamesPlayed (game (world
    (handle (handle (handle fresh (Click paperBtn)) (Click resetBtn))
            (DelayElapsed 0)))) = 1.
Proof.
  apply (reset_does_not_cancel_round (handle fresh (Click paperBtn)) "paper" 0).
  reflexivity.
Defined.

(** ** The document *)

Lemma In_classList_add (x token : string) (e : element) :
  In x (classList (classList_add token e)) <-> x = token \/ In x (classList e).
Proof.
  unfold classList_add.
  destruct (existsb (String.eqb token) (classList e)) eqn:E.
  - split; [ auto | intros [-> | H]; [ | exact H ] ].
    apply existsb_exists in E. destruct E as (y & Hy & Ey).
    apply String.eqb_eq in Ey. subst y. exact Hy.
  - cbn [classList]. rewrite in_app_iff. cbn. intuition auto.
Qed.

Lemma In_classList_remove (x : string) (tokens : list string) (e : element) :
  In x (classList (classList_remove tokens e)) <->
  In x (classList e) /\ ~ In x tokens.
Proof.
  unfold classList_remove. cbn [classList]. rewrite filter_In, negb_true_iff.
  split; intros [H1 H2]; (split; [ exact H1 | ]).
  - intros H. assert (E : existsb (String.eqb x) tokens = true).
    { apply existsb_exists. exists x. split; [ exact H | apply String.eqb_refl ]. }
    congruence.
  - destruct (existsb (String.eqb x) tokens) eqn:E; [ | reflexivity ].
    apply existsb_exists in E. destruct E as (y & Hy & Ey).
    apply String.eqb_eq in Ey. subst y. contradiction.
Qed.

Lemma shown_results_removed (e : element) :
  shown_results (classList_remove result_classes e) = [].
Proof.
  unfold shown_results, classList_remove. cbn [classList].
  induction (classList e) as [ | c l IH ]; [ reflexivity | ].
  cbn [filter]. destruct (existsb (String.eqb c) result_classes) eqn:E; cbn [negb].
  - exact IH.
  - cbn [filter]. rewrite E. exact IH.
Qed.

Lemma shown_results_set_textContent (t : DOMString) (e : element) :
  shown_results (set_textContent t e) = shown_results e.
Proof. reflexivity. Qed.

Lemma shown_results_added (result : string) (e : element) :
  is_result result -> shown_results e = [] ->
  shown_results (classList_add result e) = [result].
Proof.
  intros Hr He. unfold classList_add.
  destruct (existsb (String.eqb result) (classList e)) eqn:E.
  - exfalso. apply existsb_exists in E. destruct E as (y & Hy & Ey).
    apply String.eqb_eq in Ey. subst y.
    assert (In result (shown_results e)).
    { unfold shown_results. apply filter_In. split; [ exact Hy | ].
      unfold is_result in Hr. choice_cases Hr; reflexivity. }
    rewrite He in H. contradiction.
  - unfold shown_results in *. cbn [classList]. rewrite filter_app, He.
    unfold is_result in Hr. choice_cases Hr; reflexivity.
Qed.

(** *** What each function leaves alone *)

Lemma updateUI_projections (ToString : spec_float -> DOMString)
      (g : GameState) (x : elements.t) :
  elements.playerChoiceIcon (updateUI ToString g x) = elements.playerChoiceIcon x /\
  elements.computerChoiceIcon (updateUI ToString g x) = elements.computerChoiceIcon x /\
  elements.resultText (updateUI ToString g x) = elements.resultText x /\
  elements.resetIcon_animation (updateUI ToString g x) = elements.resetIcon_animation x.
Proof. destruct x; repeat split; reflexivity. Qed.

Lemma updateUI_shows (ToString : spec_float -> DOMString)
      (g : GameState) (x : elements.t) :
  shows ToString g (updateUI ToString g x).
Proof. destruct x; repeat split; reflexivity. Qed.

Lemma shows_set_isPlaying (ToString : spec_float -> DOMString)
      (b : bool) (g : GameState) (x : elements.t) :
  shows ToString g x -> shows ToString (set_isPlaying b g) x.
Proof. destruct g; exact (fun H => H). Qed.

Lemma shows_scoreboard (ToString : spec_float -> DOMString)
      (g : GameState) (x y : elements.t) :
  scoreboard x = scoreboard y -> shows ToString g x -> shows ToString g y.
Proof.
  unfold scoreboard, shows. intros E. injection E as E1 E2 E3 E4 E5.
  rewrite E1, E2, E3, E4, E5. exact (fun H => H).
Qed.

(** *** One function at a time *)


Lemma determineWinner_is_result (playerChoice computerChoice : string) :
  is_result (determineWinner playerChoice computerChoice).
Proof.
  unfold is_result.
  destruct (determineWinner_result_cases playerChoice computerChoice)
    as [-> | [-> | ->]]; simpl; auto.
Qed.

Lemma textContent_classList_add (token : string) (e : element) :
  textContent (classList_add token e) = textContent e.
Proof.
  unfold classList_add. destruct (existsb (String.eqb token) (classList e)); reflexivity.
Qed.

Lemma own_CHOICE_EMOJIS (c : string) :
  In c CHOICES -> exists icon, own CHOICE_EMOJIS c = Some icon.
Proof. intros H; choice_cases H; eexists; reflexivity. Qed.

Lemma getComputerChoice_drawn (randomIndex : nat) :
  (randomIndex < 3)%nat -> In (getComputerChoice randomIndex) CHOICES.
Proof.
  intros H. destruct randomIndex as [ | [ | [ | n ] ] ]; simpl; auto; lia.
Qed.

Lemma getResultMessage_drawn (result : string) (messageIndex : nat) :
  is_result result -> (messageIndex < 4)%nat ->
  exists message messages,
    getResultMessage result messageIndex = Some message /\
    own RESULT_MESSAGES result = Some messages /\ In message messages.
Proof.
  intros Hr Hm. unfold is_result in Hr. unfold getResultMessage.
  choice_cases Hr;
    destruct messageIndex as [ | [ | [ | [ | n ] ] ] ]; try lia;
    eexists; eexists; (split; [ reflexivity | split; [ reflexivity | ] ]);
    simpl; auto.
Qed.

Lemma playRound_document_idle (playerChoice : string) (d : Document) :
  In playerChoice CHOICES ->
  isPlaying (game (world (page d))) = false ->
  exists d',
    playRound_document playerChoice d = Some d' /\
    page d' = playRound playerChoice (page d) /\
    scoreboard (els d') = scoreboard (els d) /\
    thinking d' /\
    shown_results (elements.resultText (els d')) = [] /\
    callbacks d' = callbacks d.
Proof.
  intros Hc Hp. unfold playRound_document. rewrite Hp.
  destruct (own_CHOICE_EMOJIS playerChoice Hc) as [icon ->].
  eexists. split; [ reflexivity | ].
  destruct d as [pg x cbs]. destruct x as [ps cs pi ci rt an gp wr st].
  unfold thinking. cbn [page els callbacks]. dom.
  split; [ reflexivity | ]. split; [ reflexivity | ].
  split; [ | split; [ apply shown_results_removed | reflexivity ] ].
  apply In_classList_add. left; reflexivity.
Qed.

Lemma playRound_document_busy (playerChoice : string) (d : Document) :
  isPlaying (game (world (page d))) = true ->
  playRound_document playerChoice d = Some d /\
  playRound playerChoice (page d) = page d.
Proof.
  intros Hp. unfold playRound_document, playRound. rewrite Hp. split; reflexivity.
Qed.

Lemma playRound_resume_document_drawn (ToString : spec_float -> DOMString)
      (playerChoice : string) (randomIndex messageIndex : nat)
      (rest : list string) (d : Document) :
  In playerChoice CHOICES -> (randomIndex < 3)%nat -> (messageIndex < 4)%nat ->
  let result := determineWinner playerChoice (getComputerChoice randomIndex) in
  let w := playRound_resume playerChoice randomIndex (world (page d)) in
  exists d' messages,
    playRound_resume_document ToString playerChoice randomIndex messageIndex rest d
      = Some d' /\
    page d' = mkPage w rest /\
    shows ToString (game w) (els d') /\
    ~ thinking d' /\
    shown_results (elements.resultText (els d')) = [result] /\
    own RESULT_MESSAGES result = Some messages /\
    In (textContent (elements.resultText (els d'))) messages /\
    Some (textContent (elements.playerChoiceIcon (els d')))
      = own CHOICE_EMOJIS playerChoice /\
    Some (textContent (elements.computerChoiceIcon (els d')))
      = own CHOICE_EMOJIS (getComputerChoice randomIndex) /\
    callbacks d' = callbacks d ++ [RemoveActive].
Proof.
  intros Hc Hi Hm. cbv zeta.
  destruct (own_CHOICE_EMOJIS playerChoice Hc) as [icon Ei].
  destruct (own_CHOICE_EMOJIS _ (getComputerChoice_drawn randomIndex Hi)) as [icon' Ei'].
  destruct (getResultMessage_drawn
              (determineWinner playerChoice (getComputerChoice randomIndex))
              messageIndex) as (message & messages & Em & Eo & Hin);
    [ apply determineWinner_is_result | assumption | ].
  destruct d as [pg x cbs]. destruct x as [ps cs pi ci rt an gp wr st].
  unfold playRound_resume_document, updateChoiceDisplays, updateResultDisplay.
  cbn [els callbacks page]. rewrite Ei, Ei'. dom. rewrite Em.
  eexists. exists messages. split; [ reflexivity | ].
  unfold thinking. dom. cbn [page els callbacks].
  split; [ reflexivity | ].
  split; [ repeat split; reflexivity | ].
  split.
  { rewrite In_classList_add. cbn [set_textContent classList].
    rewrite In_classList_remove. intros [E | [_ N]]; [ discriminate E | ].
    apply N; simpl; auto. }
  split.
  { apply shown_results_added;
      [ apply determineWinner_is_result | apply shown_results_removed ]. }
  split; [ exact Eo | ].
  rewrite !textContent_classList_add. cbn [set_textContent textContent classList_remove].
  repeat split; try reflexivity. exact Hin.
Qed.

Lemma resetGame_document_does (ToString : spec_float -> DOMString) (d : Document) :
  page (resetGame_document ToString d) = on_page resetGame (page d) /\
  (thinking (resetGame_document ToString d) <-> thinking d) /\
  shown_results (elements.resultText (els (resetGame_document ToString d))) = [] /\
  textContent (elements.resultText (els (resetGame_document ToString d)))
    = JSON.codes "Make your move!" /\
  callbacks (resetGame_document ToString d) = callbacks d ++ [ClearAnimation].
Proof.
  destruct d as [pg x cbs]. destruct x as [ps cs pi ci rt an gp wr st].
  unfold resetGame_document, thinking. cbn [page els callbacks]. dom.
  split; [ reflexivity | ]. split; [ reflexivity | ].
  split; [ apply shown_results_removed | split; reflexivity ].
Qed.

Lemma resetGame_document_shows (ToString : spec_float -> DOMString) (d : Document) :
  shows ToString (game (world (page (resetGame_document ToString d))))
        (els (resetGame_document ToString d)).
Proof.
  destruct d as [pg x cbs]. destruct x as [ps cs pi ci rt an gp wr st].
  unfold resetGame_document. cbn [page els callbacks]. dom.
  repeat split; reflexivity.
Qed.

Lemma run_callback_does (c : callback) (x : elements.t) :
  scoreboard (run_callback c x) = scoreboard x /\
  elements.resultText (run_callback c x) = elements.resultText x /\
  (In "thinking"%string (classList (elements.computerChoiceIcon (run_callback c x)))
   <-> In "thinking"%string (classList (elements.computerChoiceIcon x))).
Proof.
  destruct x as [ps cs pi ci rt an gp wr st]. destruct c; dom.
  - split; [ reflexivity | ]. split; [ reflexivity | ].
    rewrite In_classList_remove. split; [ tauto | ].
    intros H; split; [ exact H | ]. simpl. intros [E | []]; discriminate E.
  - repeat split; auto.
Qed.

(** *** One event at a time *)

Section Document_steps.

Variable ToString : spec_float -> DOMString.

Lemma playRound_document_page (playerChoice : string) (d d' : Document) :
  playRound_document playerChoice d = Some d' ->
  page d' = playRound playerChoice (page d).
Proof.
  unfold playRound_document.
  destruct (isPlaying (game (world (page d)))) eqn:E.
  - intros H; injection H as <-. symmetry; apply playRound_ignored, E.
  - destruct (own CHOICE_EMOJIS playerChoice); [ | discriminate ].
    intros H; injection H as <-. reflexivity.
Qed.

Lemma playRound_document_shows (playerChoice : string) (d d' : Document) :
  playRound_document playerChoice d = Some d' ->
  shows ToString (game (world (page d))) (els d) ->
  shows ToString (game (world (page d'))) (els d').
Proof.
  unfold playRound_document, playRound.
  destruct (isPlaying (game (world (page d)))) eqn:E.
  - intros H; injection H as <-. exact (fun S => S).
  - destruct (own CHOICE_EMOJIS playerChoice); [ | discriminate ].
    intros H; injection H as <-. cbn [page els world game with_game].
    intros S. apply shows_set_isPlaying.
    revert S. apply shows_scoreboard.
    destruct d as [pg x cbs]; destruct x; reflexivity.
Qed.

Lemma keydown_document_cases (key : string) (d : Document) :
  (keydown_document ToString key d = Some d /\ keydown key (page d) = page d) \/
  (exists playerChoice,
     In playerChoice CHOICES /\
     keydown_document ToString key d = playRound_document playerChoice d /\
     keydown key (page d) = playRound playerChoice (page d)) \/
  (keydown_document ToString key d = Some (resetGame_document ToString d) /\
   keydown key (page d) = on_page resetGame (page d)).
Proof.
  unfold keydown_document, keydown.
  destruct (isPlaying (game (world (page d)))); [ auto | ].
  repeat match goal with
         | |- context [ if ?b then _ else _ ] => destruct b
         end;
    first [ left; split; reflexivity
          | right; right; split; reflexivity
          | right; left; eexists; split; [ | split; reflexivity ]; simpl; auto ].
Qed.

Lemma playRound_resume_document_page (playerChoice : string)
      (randomIndex messageIndex : nat) (rest : list string) (d d' : Document) :
  playRound_resume_document ToString playerChoice randomIndex messageIndex rest d
    = Some d' ->
  page d' = mkPage (playRound_resume playerChoice randomIndex (world (page d))) rest /\
  shows ToString (game (world (page d'))) (els d').
Proof.
  unfold playRound_resume_document.
  destruct (updateChoiceDisplays _ _ _ _) as [[x cbs] | ]; [ | discriminate ].
  destruct (updateResultDisplay _ _ _); [ | discriminate ].
  intros H; injection H as <-. cbn [page els world game].
  split; [ reflexivity | apply updateUI_shows ].
Qed.

(** The document carries the page along: its state and storage move as
    the page model says. *)
Lemma handle_document_page (d d' : Document) (e : document_event) :
  handle_document ToString d e = Some d' ->
  page d' = match page_event e with
            | Some e' => handle (page d) e'
            | None => page d
            end.
Proof.
  destruct e as [ [ | | | ] | key | randomIndex messageIndex | k ];
    cbn [handle_document page_event handle].
  - apply playRound_document_page.
  - apply playRound_document_page.
  - apply playRound_document_page.
  - intros H; injection H as <-. reflexivity.
  - destruct (keydown_document_cases key d) as [[-> ->] | [(c & _ & -> & ->) | [-> ->]]].
    + intros H; injection H as <-; reflexivity.
    + apply playRound_document_page.
    + intros H; injection H as <-; reflexivity.
  - destruct (timers (page d)) as [ | p rest ].
    + intros H; injection H as <-; reflexivity.
    + intros H. apply playRound_resume_document_page in H. apply H.
  - destruct (nth_error (callbacks d) k); intros H; injection H as <-; reflexivity.
Qed.

Lemma handle_document_shows (d d' : Document) (e : document_event) :
  handle_document ToString d e = Some d' ->
  shows ToString (game (world (page d))) (els d) ->
  shows ToString (game (world (page d'))) (els d').
Proof.
  destruct e as [ [ | | | ] | key | randomIndex messageIndex | k ];
    cbn [handle_document].
  - apply playRound_document_shows.
  - apply playRound_document_shows.
  - apply playRound_document_shows.
  - intros H _; injection H as <-. apply resetGame_document_shows.
  - destruct (keydown_document_cases key d) as [[-> _] | [(c & _ & -> & _) | [-> _]]].
    + intros H; injection H as <-; exact (fun S => S).
    + apply playRound_document_shows.
    + intros H _; injection H as <-. apply resetGame_document_shows.
  - destruct (timers (page d)) as [ | p rest ].
    + intros H; injection H as <-; exact (fun S => S).
    + intros H _. apply playRound_resume_document_page in H. apply H.
  - destruct (nth_error (callbacks d) k) as [ c | ]; intros H; injection H as <-;
      [ | exact (fun S => S) ].
    cbn [page els]. apply shows_scoreboard. symmetry; apply run_callback_does.
Qed.

Lemma started_by_script_playRound (playerChoice : string) (pg : Page) :
  In playerChoice CHOICES -> started_by_script pg ->
  started_by_script (playRound playerChoice pg).
Proof.
  unfold started_by_script, playRound.
  destruct (isPlaying (game (world pg))); intros Hc H; [ exact H | ].
  cbn [timers]. apply Forall_app. split; [ exact H | ].
  constructor; [ exact Hc | constructor ].
Qed.

(** With draws in range no function of the document reads a key its table
    lacks. *)
Lemma handle_document_defined (d : Document) (e : document_event) :
  drawn e -> started_by_script (page d) ->
  exists d', handle_document ToString d e = Some d' /\ started_by_script (page d').
Proof.
  intros He Hs.
  assert (P : forall c, In c CHOICES ->
                exists d', playRound_document c d = Some d' /\
                           started_by_script (page d')).
  { intros c Hc. destruct (isPlaying (game (world (page d)))) eqn:E.
    - exists d. split; [ apply playRound_document_busy, E | exact Hs ].
    - destruct (playRound_document_idle c d Hc E) as (d' & H & Hp & _).
      exists d'. split; [ exact H | ]. rewrite Hp.
      apply started_by_script_playRound; assumption. }
  destruct e as [ [ | | | ] | key | randomIndex messageIndex | k ];
    cbn [handle_document].
  - apply P; simpl; auto.
  - apply P; simpl; auto.
  - apply P; simpl; auto.
  - eexists; split; [ reflexivity | exact Hs ].
  - destruct (keydown_document_cases key d) as [[-> _] | [(c & Hc & -> & _) | [-> _]]].
    + eexists; split; [ reflexivity | exact Hs ].
    + apply P, Hc.
    + eexists; split; [ reflexivity | exact Hs ].
  - unfold started_by_script in Hs.
    destruct (timers (page d)) as [ | p rest ] eqn:T.
    + eexists; split; [ reflexivity | ]. unfold started_by_script; rewrite T; constructor.
    + inversion Hs as [ | ? ? Hp Hrest ]; subst. destruct He as [Hi Hm].
      destruct (playRound_resume_document_drawn ToString p randomIndex messageIndex
                  rest d Hp Hi Hm) as (d' & ms & H & Hpage & _).
      exists d'. split; [ exact H | ]. rewrite Hpage. exact Hrest.
  - destruct (nth_error (callbacks d) k); eexists; (split; [ reflexivity | exact Hs ]).
Qed.

Lemma handle_document_display (d d' : Document) (e : document_event) :
  drawn e -> handle_document ToString d e = Some d' ->
  display_ok d -> display_ok d'.
Proof.
  intros He H Dd. pose proof Dd as (G & Hs & Hbusy & Hidle).
  assert (G' : guarded (page d')).
  { rewrite (handle_document_page d d' e H).
    destruct (page_event e); [ apply guarded_handle, G | exact G ]. }
  assert (Hs' : started_by_script (page d')).
  { destruct (handle_document_defined d e He Hs) as (d'' & H' & S).
    rewrite H in H'. injection H' as <-. exact S. }
  assert (P : forall c, In c CHOICES -> playRound_document c d = Some d' ->
                        display_ok d').
  { intros c Hc Hd. destruct (isPlaying (game (world (page d)))) eqn:E.
    - destruct (playRound_document_busy c d E) as [Hb _].
      rewrite Hb in Hd. injection Hd as <-. exact Dd.
    - destruct (playRound_document_idle c d Hc E) as (d'' & Hi & Hp & _ & Ht & Hr & _).
      rewrite Hi in Hd. injection Hd as <-.
      split; [ exact G' | ]. split; [ exact Hs' | ]. split; [ auto | ].
      intros T. rewrite Hp, playRound_started in T by exact E.
      cbn [timers] in T. destruct (timers (page d)); discriminate T. }
  assert (R : display_ok (resetGame_document ToString d) ->
              Some (resetGame_document ToString d) = Some d' -> display_ok d').
  { intros D E; injection E as <-; exact D. }
  assert (D : display_ok (resetGame_document ToString d)).
  { destruct (resetGame_document_does ToString d) as (Hp & Ht & Hr & _).
    unfold display_ok. rewrite Hp, Hr.
    cbn [on_page timers]. split; [ apply guarded_reset, G | ].
    split; [ exact Hs | ]. split.
    - intros T. split; [ apply Ht, Hbusy, T | reflexivity ].
    - intros T. split; [ rewrite Ht; apply Hidle, T | cbn; lia ]. }
  destruct e as [ [ | | | ] | key | randomIndex messageIndex | k ];
    cbn [handle_document] in H.
  - apply (P "rock"%string); [ simpl; auto | exact H ].
  - apply (P "paper"%string); [ simpl; auto | exact H ].
  - apply (P "scissors"%string); [ simpl; auto | exact H ].
  - apply R; assumption.
  - destruct (keydown_document_cases key d) as [[E _] | [(c & Hc & E & _) | [E _]]];
      rewrite E in H.
    + injection H as <-. exact Dd.
    + apply (P c); assumption.
    + apply R; assumption.
  - destruct (timers (page d)) as [ | p rest ] eqn:T.
    + injection H as <-. exact Dd.
    + unfold started_by_script in Hs. rewrite T in Hs.
      inversion Hs as [ | ? ? Hp Hrest ]; subst. destruct He as [Hi Hm].
      destruct (playRound_resume_document_drawn ToString p randomIndex messageIndex
                  rest d Hp Hi Hm) as (d'' & ms & H' & Hpage & _ & Ht & Hr & _).
      rewrite H in H'. injection H' as <-.
      assert (rest = []).
      { destruct G as [G | [[q G] _]]; rewrite T in G; [ discriminate G | ].
        injection G as _ G. exact G. }
      subst rest.
      split; [ exact G' | ]. split; [ exact Hs' | ].
      rewrite Hpage. cbn [timers]. split.
      * intros N; contradiction N; reflexivity.
      * intros _. split; [ exact Ht | rewrite Hr; cbn; lia ].
  - destruct (nth_error (callbacks d) k) as [ c | ]; injection H as <-;
      [ | exact Dd ].
    destruct (run_callback_does c (els d)) as (_ & Er & Et).
    unfold display_ok, thinking in *. cbn [page els]. rewrite Er, Et.
    exact Dd.
Qed.

End Document_steps.

(** *** Sequences of events *)

Section Document_properties.

Variable ToString : spec_float -> DOMString.

Lemma run_document_defined (events : list document_event) :
  forall d, Forall drawn events -> started_by_script (page d) ->
            exists d', run_document ToString events d = Some d'.
Proof.
  induction events as [ | e events IH ]; intros d He Hs.
  - exists d; reflexivity.
  - inversion He as [ | ? ? He1 He2 ]; subst.
    destruct (handle_document_defined ToString d e He1 Hs) as (d1 & H1 & S1).
    cbn [run_document]. rewrite H1. apply IH; assumption.
Qed.

Lemma run_document_page (events : list document_event) :
  forall d d', run_document ToString events d = Some d' ->
               page d' = run (page_events events) (page d).
Proof.
  induction events as [ | e events IH ]; intros d d' H.
  - injection H as <-; reflexivity.
  - cbn [run_document] in H.
    destruct (handle_document ToString d e) as [ d1 | ] eqn:H1; [ | discriminate ].
    rewrite (IH d1 d' H), (handle_document_page ToString d d1 e H1).
    cbn [page_events]. destruct (page_event e); reflexivity.
Qed.

(** X11. The script never shows an undefined icon or message.  From a
    document whose pending rounds, if any, were started with one of the
    choices, and with every draw below the length it is drawn for, every
    event is handled with each read of [CHOICE_EMOJIS] and
    [RESULT_MESSAGES] at a key the table has; and the state and storage
    reached are those the events give on the page alone. *)
Theorem document_reads_defined_keys (events : list document_event) (d : Document)
    (He : Forall drawn events) (Hs : started_by_script (page d)) :
  exists d', run_document ToString events d = Some d' /\
             page d' = run (page_events events) (page d).
Proof.
  destruct (run_document_defined events d He Hs) as [d' H].
  exists d'. split; [ exact H | apply run_document_page, H ].
Qed.

(** X12. The scoreboard is never stale: if the five texts of the
    scoreboard are those of the statistics, they still are after any
    sequence of events, whatever the conversion of numbers to text is. *)
Theorem scoreboard_follows_statistics (events : list document_event)
    (d d' : Document)
    (H : run_document ToString events d = Some d')
    (S : shows ToString (game (world (page d))) (els d)) :
  shows ToString (game (world (page d'))) (els d').
Proof.
  revert d H S. induction events as [ | e events IH ]; intros d H S.
  - injection H as <-; exact S.
  - cbn [run_document] in H.
    destruct (handle_document ToString d e) as [ d1 | ] eqn:H1; [ | discriminate ].
    apply (IH d1 H). apply (handle_document_shows ToString d d1 e H1 S).
Qed.

(** X13. A restored page shows what the closed page had.  Whatever a
    visit from the fresh page has stored, [init] on the next visit ends
    with the listeners installed, the statistics of the closed page (with
    isPlaying true) and a scoreboard that shows them, whatever the HTML
    held. *)
Theorem reload_shows_statistics (events : list event) (blob : string)
    (html : elements.t)
    (H : rpsGameState (world (run events fresh)) = Some blob) :
  exists d,
    init_document ToString (Some blob) html = Some d /\
    game (world (page d)) = set_isPlaying true (game (world (run events fresh))) /\
    shows ToString (game (world (run events fresh))) (els d) /\
    timers (page d) = [] /\ callbacks d = [].
Proof.
  pose proof (stored_current_run events fresh) as C.
  unfold stored_current in C. rewrite H in C.
  assert (E : blob = JSON_stringify (set_isPlaying true (game (world (run events fresh))))).
  { apply C; [ left; reflexivity | ].
    unfold counters_zero; cbn; repeat split; reflexivity. }
  clear C H.
  set (g := game (world (run events fresh))) in *. clearbody g.
  assert (L : loadGame (mkWorld gameState (Some blob)) =
              Returns (mkWorld (set_isPlaying true g) (Some blob))).
  { rewrite E; apply loadGame_saved. }
  assert (N : exists c rest, blob = String c rest).
  { rewrite E; unfold JSON_stringify; cbn [append]; eauto. }
  destruct N as (c & rest & N).
  unfold init_document, init. rewrite L, N.
  eexists. split; [ reflexivity | ]. cbn [page world game els timers callbacks].
  split; [ reflexivity | ]. split; [ | split; reflexivity ].
  pose proof (updateUI_shows ToString (set_isPlaying true g) html) as S.
  apply (shows_set_isPlaying ToString (isPlaying g)) in S.
  rewrite set_isPlaying_twice, set_isPlaying_same in S. exact S.
Qed.

(** X14. What the document shows of the round follows the round.  If,
    to begin with, the computer's icon carries thinking and the result text
    no result class exactly while a round is pending, and the result text
    at most one result class otherwise, then after any sequence of events
    with draws in range: while a round is pending the computer's icon
    carries thinking and the result text none of win, lose, tie; while none
    is pending there is no thinking and at most one of the three. *)
Theorem display_follows_round (events : list document_event) (d d' : Document)
    (He : Forall drawn events)
    (H : run_document ToString events d = Some d')
    (D : display_ok d) :
  (timers (page d') <> [] ->
     thinking d' /\ shown_results (elements.resultText (els d')) = []) /\
  (timers (page d') = [] ->
     ~ thinking d' /\
     (List.length (shown_results (elements.resultText (els d'))) <= 1)%nat).
Proof.
  assert (G : display_ok d'); [ | apply G ].
  revert d H D. induction events as [ | e events IH ]; intros d H D.
  - injection H as <-; exact D.
  - inversion He as [ | ? ? He1 He2 ]; subst. cbn [run_document] in H.
    destruct (handle_document ToString d e) as [ d1 | ] eqn:H1; [ | discriminate ].
    apply (IH He2 d1 H). apply (handle_document_display ToString d d1 e He1 H1 D).
Qed.

Lemma message_tells_result (result result' : string)
      (messages messages' : list DOMString) (message : DOMString) :
  own RESULT_MESSAGES result = Some messages ->
  own RESULT_MESSAGES result' = Some messages' ->
  In message messages -> In message messages' -> result = result'.
Proof.
  unfold own, RESULT_MESSAGES.
  destruct (String.eqb_spec "win" result) as [ <- | _ ];
    [ | destruct (String.eqb_spec "lose" result) as [ <- | _ ];
        [ | destruct (String.eqb_spec "tie" result) as [ <- | _ ]; [ | discriminate ] ] ];
    (destruct (String.eqb_spec "win" result') as [ <- | _ ];
     [ | destruct (String.eqb_spec "lose" result') as [ <- | _ ];
         [ | destruct (String.eqb_spec "tie" result') as [ <- | _ ]; [ | discriminate ] ] ]);
    intros E1 E2; injection E1 as <-; injection E2 as <-;
    try reflexivity;
    intros H1 H2; exfalso; simpl in H1, H2;
    repeat match type of H1 with
           | _ \/ _ => destruct H1 as [H1 | H1]
           | False => contradiction
           end;
    subst message;
    repeat match type of H2 with
           | _ \/ _ => destruct H2 as [H2 | H2]
           | False => contradiction
           end;
    discriminate H2.
Qed.

(** X15. What a completed round shows is what it counted.  When the timer
    of the pending round fires, with draws in range, the statistics are
    updated with the result of [determineWinner], the result text carries
    that result as its only result class and one of the messages of that
    result and of no other, the two icons are those of the two choices,
    thinking is gone, and the scoreboard shows the updated statistics. *)
Theorem completed_round_display (d : Document) (playerChoice : string)
    (randomIndex messageIndex : nat)
    (T : timers (page d) = [playerChoice]) (Hp : In playerChoice CHOICES)
    (Hi : (randomIndex < 3)%nat) (Hm : (messageIndex < 4)%nat) :
  let result := determineWinner playerChoice (getComputerChoice randomIndex) in
  exists d' messages,
    handle_document ToString d (RoundDelayElapsed randomIndex messageIndex) = Some d' /\
    game (world (page d')) =
      set_isPlaying false (updateGameState result (game (world (page d)))) /\
    shows ToString (game (world (page d'))) (els d') /\
    shown_results (elements.resultText (els d')) = [result] /\
    own RESULT_MESSAGES result = Some messages /\
    In (textContent (elements.resultText (els d'))) messages /\
    (forall result' messages',
       own RESULT_MESSAGES result' = Some messages' ->
       In (textContent (elements.resultText (els d'))) messages' ->
       result' = result) /\
    Some (textContent (elements.playerChoiceIcon (els d')))
      = own CHOICE_EMOJIS playerChoice /\
    Some (textContent (elements.computerChoiceIcon (els d')))
      = own CHOICE_EMOJIS (getComputerChoice randomIndex) /\
    ~ thinking d'.
Proof.
  cbv zeta. cbn [handle_document]. rewrite T.
  destruct (playRound_resume_document_drawn ToString playerChoice randomIndex
              messageIndex [] d Hp Hi Hm)
    as (d' & ms & H & Hpage & S & Ht & Hr & Eo & Hin & I1 & I2 & _).
  exists d', ms. split; [ exact H | ].
  rewrite Hpage. cbn [world]. rewrite playRound_resume_game.
  split; [ reflexivity | ].
  split; [ rewrite playRound_resume_game in S; exact S | ].
  split; [ exact Hr | ]. split; [ exact Eo | ]. split; [ exact Hin | ].
  split; [ | split; [ exact I1 | split; [ exact I2 | exact Ht ] ] ].
  intros r' ms' Eo' Hin'. symmetry.
  apply (message_tells_result _ _ _ _ _ Eo Eo' Hin Hin').
Qed.

End Document_properties.

(** *** Examples *)

Lemma document_reads_defined_keys_witness :
  exists d',
    run_document decimal_text example_events example_start = Some d' /\
    page d' = run (page_events example_events) (page example_start).
Proof.
  apply (document_reads_defined_keys decimal_text example_events example_start).
  - repeat (apply Forall_cons; [ simpl; auto; lia | ]); apply Forall_nil.
  - apply Forall_nil.
Defined.

Lemma scoreboard_follows_statistics_witness :
  run_document decimal_text example_events example_start = Some example_end /\
  shows decimal_text (game (world (page example_start))) (els example_start) /\
  shows decimal_text (game (world (page example_end))) (els example_end).
Proof.
  assert (H : run_document decimal_text example_events example_start = Some example_end)
    by (vm_compute; reflexivity).
  assert (S : shows decimal_text (game (world (page example_start))) (els example_start))
    by (vm_compute; repeat split; reflexivity).
  split; [ exact H | ]. split; [ exact S | ].
  exact (scoreboard_follows_statistics decimal_text example_events
           example_start example_end H S).
Defined.

Lemma reload_shows_statistics_witness :
  exists d,
    init_document decimal_text
      (Some (JSON_stringify (set_isPlaying true (updateGameState RESULTS.WIN gameState))))
      blank = Some d /\
    game (world (page d)) =
      set_isPlaying true (game (world (run [Click rockBtn; DelayElapsed 2] fresh))) /\
    shows decimal_text (game (world (run [Click rockBtn; DelayElapsed 2] fresh))) (els d) /\
    timers (page d) = [] /\ callbacks d = [].
Proof.
  apply (reload_shows_statistics decimal_text [Click rockBtn; DelayElapsed 2]).
  reflexivity.
Defined.

Lemma display_ok_example_start : display_ok example_start.
Proof.
  split; [ left; reflexivity | ]. split; [ apply Forall_nil | ]. split.
  - intros N; contradiction N; reflexivity.
  - intros _. split; [ | vm_compute; lia ].
    unfold thinking. vm_compute. intros F; exact F.
Qed.

Lemma display_follows_round_witness :
  run_document decimal_text example_events example_start = Some example_end /\
  ~ thinking example_end /\
  (List.length (shown_results (elements.resultText (els example_end))) <= 1)%nat.
Proof.
  assert (H : run_document decimal_text example_events example_start = Some example_end)
    by (vm_compute; reflexivity).
  split; [ exact H | ].
  apply (display_follows_round decimal_text example_events example_start example_end).
  - repeat (apply Forall_cons; [ simpl; auto; lia | ]); apply Forall_nil.
  - exact H.
  - exact display_ok_example_start.
  - reflexivity.
Defined.

Lemma completed_round_display_witness :
  exists d' messages,
    handle_document decimal_text
      (mkDocument (playRound "paper" fresh) blank []) (RoundDelayElapsed 0 1) = Some d' /\
    game (world (page d')) =
      set_isPlaying false
        (updateGameState (determineWinner "paper" (getComputerChoice 0))
           (game (world (page (mkDocument (playRound "paper" fresh) blank []))))) /\
    shows decimal_text (game (world (page d'))) (els d') /\
    shown_results (elements.resultText (els d'))
      = [determineWinner "paper" (getComputerChoice 0)] /\
    own RESULT_MESSAGES (determineWinner "paper" (getComputerChoice 0)) = Some messages /\
    In (textContent (elements.resultText (els d'))) messages /\
    (forall result' messages',
       own RESULT_MESSAGES result' = Some messages' ->
       In (textContent (elements.resultText (els d'))) messages' ->
       result' = determineWinner "paper" (getComputerChoice 0)) /\
    Some (textContent (elements.playerChoiceIcon (els d')))
      = own CHOICE_EMOJIS "paper" /\
    Some (textContent (elements.computerChoiceIcon (els d')))
      = own CHOICE_EMOJIS (getComputerChoice 0) /\
    ~ thinking d'.
Proof.
  apply (completed_round_display decimal_text
           (mkDocument (playRound "paper" fresh) blank []) "paper" 0 1).
  - reflexivity.
  - simpl; auto.
  - lia.
  - lia.
Defined.


(* ================================================================= *)
(** ** Random draws in binary64 *)

(** *** Digits *)

Lemma digits2_pos_bounds (p : positive) :
  2 ^ (Z.pos (digits2_pos p) - 1) <= Z.pos p < 2 ^ Z.pos (digits2_pos p).
Proof.
  induction p as [ p IH | p IH | ]; cbn [digits2_pos].
  - rewrite Pos2Z.inj_succ.
    replace (Z.succ (Z.pos (digits2_pos p)) - 1) with (Z.succ (Z.pos (digits2_pos p) - 1)) by lia.
    rewrite !Z.pow_succ_r by lia. lia.
  - rewrite Pos2Z.inj_succ.
    replace (Z.succ (Z.pos (digits2_pos p)) - 1) with (Z.succ (Z.pos (digits2_pos p) - 1)) by lia.
    rewrite !Z.pow_succ_r by lia. lia.
  - cbn. lia.
Qed.

(** *** Shifting right *)

Lemma shr_inv_shr_1 (M k : Z) (r : shr_record) :
  0 <= k -> shr_inv M k r -> shr_inv M (k + 1) (shr_1 r).
Proof.
  intros Hk (Hm & rem & EM & Hrem & Hr).
  destruct r as [m rb sb]. cbn [shr_m shr_r] in *.
  assert (P : 2 ^ (k + 1) = 2 * 2 ^ k) by (rewrite Z.pow_add_r by lia; lia).
  assert (P0 : 0 < 2 ^ k) by (apply Z.pow_pos_nonneg; lia).
  destruct m as [ | [ p | p | ] | p ]; cbn [shr_1]; unfold shr_inv;
    cbn [shr_m shr_r]; try lia.
  - split; [ lia | ]. exists rem. rewrite P.
    repeat split; try lia; try discriminate.
  - split; [ lia | ]. exists (2 ^ k + rem). rewrite P.
    rewrite Pos2Z.inj_xI in EM.
    repeat split; try lia; try discriminate; rewrite EM; ring.
  - split; [ lia | ]. exists rem. rewrite P.
    rewrite Pos2Z.inj_xO in EM.
    repeat split; try lia; try discriminate; rewrite EM; ring.
  - split; [ lia | ]. exists (2 ^ k + rem). rewrite P.
    repeat split; try lia; try discriminate.
Qed.

Lemma shr_inv_iter (M : Z) (p : positive) :
  forall k r, 0 <= k -> shr_inv M k r ->
              shr_inv M (k + Z.pos p) (iter_pos shr_1 p r).
Proof.
  induction p as [ p IH | p IH | ]; intros k r Hk H; cbn [iter_pos].
  - replace (k + Z.pos p~1) with ((k + 1 + Z.pos p) + Z.pos p) by lia.
    apply IH; [ lia | ]. apply IH; [ lia | ]. apply shr_inv_shr_1; assumption.
  - replace (k + Z.pos p~0) with ((k + Z.pos p) + Z.pos p) by lia.
    apply IH; [ lia | ]. apply IH; assumption.
  - apply shr_inv_shr_1; assumption.
Qed.

Lemma shr_inv_start (M : Z) : 0 <= M -> shr_inv M 0 (shr_record_of_loc M loc_Exact).
Proof.
  intros H. split; [ exact H | ]. exists 0. cbn. repeat split; try lia; try discriminate.
Qed.

(** [shr_fexp] on an exact nonnegative mantissa: nothing is shifted, or
    [k] bits are. *)
Lemma shr_fexp_exact (M ex : Z) :
  0 <= M ->
  let k := fexp Number.prec Number.emax (Zdigits2 M + ex) - ex in
  let '(mrs, e') := shr_fexp Number.prec Number.emax M ex loc_Exact in
  (k <= 0 /\ mrs = shr_record_of_loc M loc_Exact /\ e' = ex) \/
  (0 < k /\ shr_inv M k mrs /\ e' = ex + k).
Proof.
  intros HM. cbv zeta. unfold shr_fexp, shr.
  destruct (fexp Number.prec Number.emax (Zdigits2 M + ex) - ex) as [ | p | p ] eqn:E.
  - left. repeat split; lia.
  - right. split; [ lia | ]. split; [ | reflexivity ].
    apply (shr_inv_iter M p 0); [ lia | apply shr_inv_start, HM ].
  - left. repeat split; lia.
Qed.

Lemma round_nearest_even_bounds (r : shr_record) :
  0 <= shr_m r ->
  shr_m r <= round_nearest_even (shr_m r) (loc_of_shr_record r)
          <= shr_m r + (if shr_r r then 1 else 0).
Proof.
  destruct r as [m [ | ] [ | ]]; cbn [shr_m shr_r loc_of_shr_record round_nearest_even];
    try lia.
  destruct (Z.even m); lia.
Qed.


Lemma pow2_pos (k : Z) : 0 <= k -> 0 < 2 ^ k.
Proof. intros H; apply Z.pow_pos_nonneg; lia. Qed.

Lemma pow2_split (a b : Z) : 0 <= a -> 0 <= b -> 2 ^ (a + b) = 2 ^ a * 2 ^ b.
Proof. intros; apply Z.pow_add_r; assumption. Qed.

Lemma pow2_lt_exponent (a b : Z) : 0 <= b -> 2 ^ a < 2 ^ b -> a < b.
Proof. intros Hb H. apply (Z.pow_lt_mono_r_iff 2); [ lia | exact Hb | exact H ]. Qed.

Lemma pow2_le (a b : Z) : 0 <= a <= b -> 2 ^ a <= 2 ^ b.
Proof. intros H. apply Z.pow_le_mono_r; lia. Qed.

Lemma Zdigits2_bounds (x : Z) :
  0 < x -> 0 < Zdigits2 x /\ 2 ^ (Zdigits2 x - 1) <= x < 2 ^ Zdigits2 x.
Proof.
  destruct x as [ | p | p ]; try lia. intros _. cbn [Zdigits2].
  split; [ lia | apply digits2_pos_bounds ].
Qed.

Lemma Zdigits2_le (x n : Z) : 0 <= n -> 0 <= x < 2 ^ n -> Zdigits2 x <= n.
Proof.
  intros Hn Hx. destruct (Z.eq_dec x 0) as [-> | N]; [ cbn; lia | ].
  destruct (Zdigits2_bounds x) as (Hd & Hl & _); [ lia | ].
  assert (Zdigits2 x - 1 < n); [ | lia ].
  apply pow2_lt_exponent; lia.
Qed.

Lemma fexp_eq (x : Z) : fexp Number.prec Number.emax x = Z.max (x - 53) (-1074).
Proof. reflexivity. Qed.

(** The second [shr_fexp] of [binary_round_aux] only shifts. *)
Lemma shr_fexp_exact_below (R e' : Z) :
  0 <= R ->
  let '(mrs, e'') := shr_fexp Number.prec Number.emax R e' loc_Exact in
  0 <= shr_m mrs /\ e' <= e'' /\ shr_m mrs * 2 ^ (e'' - e') <= R /\
  (e'' = e' \/ e'' = fexp Number.prec Number.emax (Zdigits2 R + e')).
Proof.
  intros HR. pose proof (shr_fexp_exact R e' HR) as H. cbv zeta in H.
  destruct (shr_fexp Number.prec Number.emax R e' loc_Exact) as [mrs e''].
  destruct H as [(Hk & -> & ->) | (Hk & (Hm & rem & ER & Hrem & _) & ->)].
  - cbn [shr_record_of_loc shr_m]. rewrite Z.sub_diag. cbn.
    repeat split; try lia; auto.
  - replace (e' + (fexp Number.prec Number.emax (Zdigits2 R + e') - e') - e')
      with (fexp Number.prec Number.emax (Zdigits2 R + e') - e') by lia.
    repeat split; try lia; right; lia.
Qed.

(** *** The product of a double below 1 and a small integer *)

Section Product.

(** [len] as a double: mantissa [my], exponent [ey]. *)
Variables (my : positive) (ey len D : Z).
Hypothesis Hmy : Z.pos my = len * 2 ^ (- ey).
Hypothesis Hey : - D <= ey <= -2.
Hypothesis HD : 0 <= D <= 53.
Hypothesis Hmy_le : Z.pos my <= 2 ^ D.
Hypothesis Hmy_gt : 2 ^ D < 2 * Z.pos my.

Lemma floor_product_below (m : positive) (e : Z) :
  bounded Number.prec Number.emax m e = true -> Z.pos m < 2 ^ (- e) ->
  exists i,
    Math_floor (SFmul Number.prec Number.emax (S754_finite false m e) (S754_finite false my ey))
      = Some i /\ 0 <= i < len.
Proof.
  intros Hb Hlt.
  (* the double below 1 *)
  unfold bounded, canonical_mantissa in Hb.
  apply andb_prop in Hb. destruct Hb as [Hc _].
  apply Z.eqb_eq in Hc. rewrite fexp_eq in Hc.
  set (dm := Z.pos (digits2_pos m)) in *.
  pose proof (digits2_pos_bounds m) as Hdm. fold dm in Hdm.
  assert (He : e < 0).
  { destruct (Z_lt_le_dec e 0) as [ | H ]; [ assumption | ].
    assert (2 ^ (- e) <= 1); [ | lia ].
    destruct (Z.eq_dec e 0) as [-> | ]; [ cbn; lia | ].
    rewrite Z.pow_neg_r; lia. }
  assert (Hdme : dm <= - e).
  { assert (dm - 1 < - e); [ | lia ].
    apply pow2_lt_exponent; lia. }
  assert (Hlen : 0 < len).
  { assert (0 < 2 ^ (- ey)) by (apply pow2_pos; lia). nia. }
  (* the exact product *)
  cbn [SFmul xorb].
  set (M := Z.pos (m * my)). set (ex := e + ey).
  assert (EM : M = Z.pos m * Z.pos my) by reflexivity.
  assert (HM0 : 0 < M) by reflexivity.
  assert (Pe : 2 ^ (- ex) = 2 ^ (- e) * 2 ^ (- ey)).
  { unfold ex. replace (- (e + ey)) with (- e + - ey) by lia.
    apply pow2_split; lia. }
  assert (HMlt : M < len * 2 ^ (- ex)).
  { rewrite Pe, EM, Hmy.
    assert (0 < 2 ^ (- ey)) by (apply pow2_pos; lia). nia. }
  (* its digits *)
  destruct (Zdigits2_bounds M HM0) as (HdM0 & HdMl & HdMu).
  set (dM := Zdigits2 M) in *.
  assert (HdM : dM <= dm + D).
  { assert (dM - 1 < dm + D); [ | lia ].
    apply pow2_lt_exponent; [ lia | ].
    rewrite pow2_split by lia.
    assert (0 < 2 ^ dm) by (apply pow2_pos; lia). nia. }
  (* the first shift *)
  unfold binary_round_aux.
  pose proof (shr_fexp_exact M ex (Z.lt_le_incl _ _ HM0)) as S1. cbv zeta in S1.
  fold dM in S1. rewrite fexp_eq in S1.
  destruct (shr_fexp Number.prec Number.emax M ex loc_Exact) as [mrs' e'].
  set (k := Z.max (dM + ex - 53) (-1074) - ex) in *.
  assert (Hk : k <= D) by (unfold k, ex; lia).
  assert (Hk53 : dM - 53 <= k) by (unfold k; lia).
  destruct S1 as [(Hk0 & -> & ->) | (Hk0 & (Hm' & rem & ER & Hrem & Hr) & ->)].
  - (* nothing is lost *)
    cbn [shr_record_of_loc shr_m loc_of_shr_record round_nearest_even].
    pose proof (shr_fexp_exact M ex (Z.lt_le_incl _ _ HM0)) as S2. cbv zeta in S2.
    fold dM in S2. rewrite fexp_eq in S2. fold k in S2.
    destruct (shr_fexp Number.prec Number.emax M ex loc_Exact) as [mrs'' e''].
    destruct S2 as [(_ & -> & ->) | (Hk1 & _)]; [ | lia ].
    cbn [shr_record_of_loc shr_m]. unfold M at 1.
    assert (E971 : (ex <=? Number.emax - Number.prec) = true) by (apply Z.leb_le; unfold ex; unfold Number.emax, Number.prec; lia).
    rewrite E971. cbn [Math_floor].
    assert (E0 : (0 <=? ex) = false) by (apply Z.leb_gt; unfold ex; lia).
    rewrite E0. eexists. split; [ reflexivity | ].
    fold M. assert (0 < 2 ^ (- ex)) by (apply pow2_pos; unfold ex; lia).
    split; [ apply Z.div_pos; lia | apply Z.div_lt_upper_bound; lia ].
  - (* [k] bits are rounded away *)
    set (e' := ex + k) in *.
    assert (He' : e' <= -2) by (unfold e', k, ex; lia).
    pose proof (round_nearest_even_bounds mrs' Hm') as HR.
    set (R := round_nearest_even (shr_m mrs') (loc_of_shr_record mrs')) in *.
    assert (P2k : 0 < 2 ^ k) by (apply pow2_pos; lia).
    assert (HR2 : 2 * (R * 2 ^ k) <= 2 * M + 2 ^ k).
    { destruct (shr_r mrs'); [ specialize (Hr eq_refl) | ]; nia. }
    assert (Hm53 : shr_m mrs' < 2 ^ 53).
    { assert (shr_m mrs' * 2 ^ k < 2 ^ 53 * 2 ^ k); [ | nia ].
      rewrite <- pow2_split by lia.
      assert (2 ^ dM <= 2 ^ (53 + k)) by (apply pow2_le; lia). lia. }
    assert (HdR : Zdigits2 R <= 54).
    { apply Zdigits2_le; [ lia | ]. change (2 ^ 54) with (2 * 2 ^ 53).
      destruct (shr_r mrs'); lia. }
    assert (HRlt : R < len * 2 ^ (- e')).
    { assert (2 * (R * 2 ^ k) < 2 * (len * 2 ^ (- e') * 2 ^ k)); [ | nia ].
      assert (Pk : 2 ^ (- e') * 2 ^ k = 2 ^ (- ex)).
      { rewrite <- pow2_split by (unfold e'; lia). f_equal. unfold e'; lia. }
      replace (len * 2 ^ (- e') * 2 ^ k) with (len * 2 ^ (- ex))
        by (rewrite <- Pk; ring).
      assert (2 ^ k <= 2 ^ D) by (apply pow2_le; lia).
      assert (0 < 2 ^ (- ey)) by (apply pow2_pos; lia).
      assert (2 * M + 2 ^ k < 2 * (len * 2 ^ (- ex))); [ | lia ].
      rewrite Pe, EM.
      replace (len * (2 ^ (- e) * 2 ^ (- ey))) with (Z.pos my * 2 ^ (- e))
        by (rewrite Hmy; ring).
      nia. }
    assert (HR0 : 0 <= R) by lia.
    pose proof (shr_fexp_exact_below R e' HR0) as S2.
    destruct (shr_fexp Number.prec Number.emax R e' loc_Exact) as [mrs'' e''].
    destruct S2 as (Hm'' & Hee & Hle & He'').
    assert (He''neg : e'' <= -1).
    { destruct He'' as [-> | ->]; [ lia | rewrite fexp_eq; lia ]. }
    assert (Hm''lt : shr_m mrs'' < len * 2 ^ (- e'')).
    { assert (P : 2 ^ (- e') = 2 ^ (- e'') * 2 ^ (e'' - e')).
      { rewrite <- pow2_split by lia. f_equal; lia. }
      assert (0 < 2 ^ (e'' - e')) by (apply pow2_pos; lia).
      rewrite P in HRlt. nia. }
    destruct (shr_m mrs'') as [ | p | p ] eqn:Ep; [ | | lia ].
    + exists 0. split; [ reflexivity | lia ].
    + assert (E971 : (e'' <=? Number.emax - Number.prec) = true) by (apply Z.leb_le; unfold Number.emax, Number.prec; lia).
      rewrite E971. cbn [Math_floor].
      assert (E0 : (0 <=? e'') = false) by (apply Z.leb_gt; lia).
      rewrite E0. eexists. split; [ reflexivity | ].
      assert (0 < 2 ^ (- e'')) by (apply pow2_pos; lia).
      split; [ apply Z.div_pos; lia | apply Z.div_lt_upper_bound; lia ].
Qed.

End Product.

(** *** The two arrays of the script *)

Lemma of_Z_3 : Number.of_Z 3 = S754_finite false 6755399441055744 (-51).
Proof. vm_compute. reflexivity. Qed.

Lemma of_Z_4 : Number.of_Z 4 = S754_finite false 4503599627370496 (-50).
Proof. vm_compute. reflexivity. Qed.

Lemma random_index_below (u : spec_float) (length : nat) :
  Math_random_range u = true -> (length = 3 \/ length = 4)%nat ->
  exists i : nat, random_index u length = Some (Z.of_nat i) /\ (i < length)%nat.
Proof.
  intros Hu Hl.
  assert (G : exists i, random_index u length = Some i /\ 0 <= i < Z.of_nat length).
  { unfold random_index, Number.mul.
    destruct Hl as [-> | ->];
      [ change (Z.of_nat 3) with 3; rewrite of_Z_3
      | change (Z.of_nat 4) with 4; rewrite of_Z_4 ];
      (destruct u as [ [ | ] | [ | ] | | [ | ] m e ]; try discriminate Hu;
       [ exists 0; split; [ reflexivity | lia ] | ]);
      cbn [Math_random_range] in Hu; apply andb_prop in Hu;
      destruct Hu as [Hb Hlt]; apply Z.ltb_lt in Hlt.
    - apply (floor_product_below 6755399441055744 (-51) 3 53);
        first [ reflexivity | assumption | lia ].
    - apply (floor_product_below 4503599627370496 (-50) 4 52);
        first [ reflexivity | assumption | lia ]. }
  destruct G as (i & E & Hi). exists (Z.to_nat i).
  rewrite Z2Nat.id by lia. split; [ exact E | lia ].
Qed.

Lemma at_index_nat {A : Type} (array : list A) (i : nat) :
  at_index array (Z.of_nat i) = nth_error array i.
Proof.
  unfold at_index. rewrite Nat2Z.id.
  destruct (Z.ltb_spec (Z.of_nat i) 0); [ lia | reflexivity ].
Qed.

(** X16.  Whatever double below 1 [Math.random()] returns, the index
    [Math.floor(Math.random() * CHOICES.length)] that [getComputerChoice]
    computes in binary64 is 0, 1 or 2: the rounded product never reaches 3,
    and the function returns one of the three choices, never [undefined]. *)
Theorem getComputerChoice_never_undefined (u : spec_float)
    (Hu : Math_random_range u = true) :
  exists randomIndex : nat,
    random_index u (List.length CHOICES) = Some (Z.of_nat randomIndex) /\
    (randomIndex < 3)%nat /\
    getComputerChoice_random u = Some (getComputerChoice randomIndex) /\
    In (getComputerChoice randomIndex) CHOICES.
Proof.
  destruct (random_index_below u (List.length CHOICES) Hu (or_introl eq_refl))
    as (i & E & Hi).
  exists i. split; [ exact E | ]. split; [ exact Hi | ].
  unfold getComputerChoice_random. rewrite E, at_index_nat.
  change (List.length CHOICES) with 3%nat in Hi.
  destruct i as [ | [ | [ | n ] ] ]; [ | | | lia ];
    (split; [ reflexivity | simpl; auto ]).
Qed.

Lemma getComputerChoice_never_undefined_witness :
  Math_random_range (S754_finite false 9007199254740991 (-53)) = true /\
  exists randomIndex : nat,
    random_index (S754_finite false 9007199254740991 (-53)) (List.length CHOICES)
      = Some (Z.of_nat randomIndex) /\
    (randomIndex < 3)%nat /\
    getComputerChoice_random (S754_finite false 9007199254740991 (-53))
      = Some (getComputerChoice randomIndex) /\
    In (getComputerChoice randomIndex) CHOICES.
Proof.
  split; [ reflexivity | ].
  apply (getComputerChoice_never_undefined (S754_finite false 9007199254740991 (-53))).
  reflexivity.
Defined.

(** X17.  For each of the three results and whatever double below 1
    [Math.random()] returns, [getResultMessage] reads its table at an own
    key, the index [Math.floor(Math.random() * messages.length)] is below
    4, and the function returns one of the four messages of the result,
    never [undefined]. *)
Theorem getResultMessage_never_undefined (result : string) (u : spec_float)
    (Hr : is_result result) (Hu : Math_random_range u = true) :
  exists (messageIndex : nat) (message : DOMString),
    (messageIndex < 4)%nat /\
    getResultMessage_random result u = Some (Some message) /\
    getResultMessage result messageIndex = Some message.
Proof.
  destruct (random_index_below u 4 Hu (or_intror eq_refl)) as (i & E & Hi).
  destruct (getResultMessage_drawn result i Hr Hi) as (message & messages & G & O & _).
  exists i, message. split; [ exact Hi | ]. split; [ | exact G ].
  unfold getResultMessage in G. unfold getResultMessage_random.
  rewrite O in G |- *.
  assert (L : List.length messages = 4%nat).
  { unfold is_result in Hr. choice_cases Hr; vm_compute in O;
      injection O as <-; reflexivity. }
  rewrite L, E, at_index_nat, G. reflexivity.
Qed.

Lemma getResultMessage_never_undefined_witness :
  is_result "tie" /\
  Math_random_range (S754_finite false 9007199254740991 (-53)) = true /\
  exists (messageIndex : nat) (message : DOMString),
    (messageIndex < 4)%nat /\
    getResultMessage_random "tie" (S754_finite false 9007199254740991 (-53))
      = Some (Some message) /\
    getResultMessage "tie" messageIndex = Some message.
Proof.
  split; [ unfold is_result; simpl; auto | ].
  split; [ reflexivity | ].
  apply (getResultMessage_never_undefined
           "tie" (S754_finite false 9007199254740991 (-53))).
  - unfold is_result; simpl; auto.
  - reflexivity.
Defined.
